(** * Magnetic field rotator: the main loop of [cirpycode/main.py]

    A shallow embedding of the control loop of the rotator firmware and the
    properties of its filters, zero-crossing detector, speed corrector, stop
    scheduler and command interpreter.

    Numbers.  The program computes with Python floats.  They are modelled by
    exact rationals [Q]: every literal of the source is the rational it
    denotes ([0.99] is [99#100]), and rounding, infinities and NaN are outside
    the model.  A property whose truth depends on rounding says so; the
    filter bound is one, see [short_average_exceeds_in_binary64].

    Exceptions.  The model has the exceptions the expressions of the script
    itself raise ([exn]).  The calls into the sensor, servo and stdin
    drivers are taken to return; their failures are outside the model.

    Time.  Every call of [time.monotonic()] is a separate reading of the
    clock; a tick receives one reading per call site (record [tick_in]).

    Effects.  Printed lines are collected as a list of [msg]; the value last
    written to [my_servo.throttle] is the field [throttle] of the state; an
    uncaught Python exception ends the run ([Raise]). *)

From Stdlib Require Import QArith Qabs Qminmax Lqa ZArith Lia PrimFloat.
From Stdlib Require Import List Bool Ascii String.
Import ListNotations.

Local Open Scope Q_scope.

(** ** Results of fallible code *)

Inductive exn : Type :=
| NameError
| ZeroDivisionError
| IndexError.

Inductive result (A : Type) : Type :=
| Ok (a : A)
| Raise (e : exn).

Arguments Ok {A} a.
Arguments Raise {A} e.

Definition bind {A B : Type} (r : result A) (k : A -> result B) : result B :=
  match r with
  | Ok a => k a
  | Raise e => Raise e
  end.

Notation "'do' x <- c ;; k" := (bind c (fun x => k))
  (at level 10, x pattern, c at level 100, k at level 200).

(** ** Float comparisons and arithmetic *)

Definition Qlt_bool (a b : Q) : bool := negb (Qle_bool b a).

(** [sum(l)] of a list of floats. *)
Fixpoint sum (l : list Q) : Q :=
  match l with
  | [] => 0
  | x :: r => x + sum r
  end.

(** [len(l)] as a Python int. *)
Definition len {A : Type} (l : list A) : Z := Z.of_nat (List.length l).

(** [a / b] on floats: a zero divisor raises. *)
Definition fdiv (a b : Q) : result Q :=
  if Qeq_bool b 0 then Raise ZeroDivisionError else Ok (a / b).

(** [l[i] = x] for [0 <= i]: an index past the end raises. *)
Fixpoint setitem (l : list Q) (i : nat) (x : Q) : result (list Q) :=
  match l, i with
  | [], _ => Raise IndexError
  | _ :: r, O => Ok (x :: r)
  | y :: r, S j => do r' <- setitem r j x ;; Ok (y :: r')
  end.

(** The sign of a rational: [-1], [0] or [1]. *)
Definition Qsign (q : Q) : Z := Z.sgn (Qnum q).

(** ** Strings *)

Local Open Scope string_scope.

(** [s[:n]] *)
Fixpoint take (n : nat) (s : string) : string :=
  match n, s with
  | O, _ => ""
  | S _, "" => ""
  | S m, String c r => String c (take m r)
  end.

(** [s[n:]] *)
Fixpoint drop (n : nat) (s : string) : string :=
  match n, s with
  | O, _ => s
  | S _, "" => ""
  | S m, String _ r => drop m r
  end.

(** The characters [str.strip()] removes on the CircuitPython interpreter:
    space, tab, newline, vertical tab, form feed and carriage return. *)
Definition isspace (c : ascii) : bool :=
  let n := nat_of_ascii c in
  orb (Nat.eqb n 32) (andb (Nat.leb 9 n) (Nat.leb n 13)).

Fixpoint lstrip (s : string) : string :=
  match s with
  | "" => ""
  | String c r => if isspace c then lstrip r else s
  end.

Fixpoint rstrip (s : string) : string :=
  match s with
  | "" => ""
  | String c r =>
      match rstrip r with
      | "" => if isspace c then "" else String c ""
      | r' => String c r'
      end
  end.

Definition strip (s : string) : string := rstrip (lstrip s).

(** [needle in hay] on strings. *)
Fixpoint str_in (needle hay : string) : bool :=
  orb (prefix needle hay)
      match hay with
      | "" => false
      | String _ r => str_in needle r
      end.

(** ['\n'], the line terminator. *)
Definition newline : ascii := ascii_of_nat 10.

(** [s.split('\n', 1)] when ['\n' in s]: the text before the first newline
    and the text after it; [None] when [s] holds no newline. *)
Fixpoint split_newline (s : string) : option (string * string) :=
  match s with
  | "" => None
  | String c r =>
      if Ascii.eqb c newline then Some ("", r)
      else match split_newline r with
           | Some (a, b) => Some (String c a, b)
           | None => None
           end
  end.

(** [s[:-2]] *)
Definition drop_last2 (s : string) : string :=
  take (String.length s - 2) s.

Local Close Scope string_scope.

(** ** Settings *)

Definition show_debug : bool := true.
Definition servo_zero_speed : Q := 17 # 1000.
Definition servo_max_speed : Q := 1.
Definition servo_min_speed : Q := -1.

(** ** Program state: the global variables of the script *)

Record state : Type := mkState {
  magval : Q;                (* input value *)
  medval : Q;                (* very long term filter *)
  fltval : Q;                (* short filter *)
  oldval : Q;                (* old filter value *)
  timelast : Q;              (* time of last passage through zero *)
  deltime : Q;               (* time between the last zero passages *)
  delist : list Q;           (* list of deltas *)
  delistind : Z;             (* index for list *)
  stoptime : Q;              (* time when to stop *)
  command : string;          (* incoming command string *)
  servo_speed : Q;           (* current speed *)
  servo_rpm : Q;             (* current required rpm (only used if nonzero) *)
  new_stop : option Q;       (* unbound until a stop time has been parsed *)
  new_speed : option Q;      (* unbound until a speed has been parsed *)
  new_rpm : option Q;        (* unbound until an rpm has been parsed *)
  throttle : option Q        (* my_servo.throttle; unset until first written *)
}.

(** The state before the first tick.  [t0] and [t1] are the two clock
    readings taken while the globals are initialised. *)
Definition init (t0 t1 : Q) : state :=
  {| magval := 0; medval := 0; fltval := 0; oldval := 0;
     timelast := t0; deltime := 1;
     delist := [1; 1; 1; 1; 1]; delistind := 0%Z;
     stoptime := t1 - 10;
     command := EmptyString;
     servo_speed := servo_zero_speed; servo_rpm := 0;
     new_stop := None; new_speed := None; new_rpm := None;
     throttle := None |}.

(** What one pass of the loop body receives from outside. *)
Record tick_in : Type := mkTick {
  mag : Q * Q * Q;       (* magsensor.magnetic at the top of the loop *)
  t_guard1 : Q;          (* clock, first test of the time guard *)
  t_guard2 : Q;          (* clock, second test of the time guard *)
  t_delta : Q;           (* clock, when deltime is taken *)
  t_last : Q;            (* clock, when timelast is taken *)
  t_mon : Q;             (* clock, timemon *)
  serial : list ascii;   (* the characters read from stdin in this pass *)
  t_cmd : Q;             (* clock, when a stop time is set *)
  mag_read : Q * Q * Q   (* magsensor.magnetic in the read command *)
}.

(** The clock never runs backwards within a pass. *)
Definition clock_monotone (i : tick_in) : Prop :=
  t_guard1 i <= t_guard2 i /\ t_guard2 i <= t_delta i /\
  t_delta i <= t_last i /\ t_last i <= t_mon i /\ t_mon i <= t_cmd i.

(** ** Printed lines

    Each constructor is one [print] of the script with the values it formats.
    The field magnitude is carried as the sum of squares; its square root is
    only taken for display. *)
Inductive msg : Type :=
| StoppingNow
| Status (speed mag_y magsq rpm_now rpm_set stopmin : Q)
| Debug (valmed valflt dtime mean : Q)
| Echo (pending : string)
| NewChar (c : ascii)
| Help
| InvalidStop (line : string)
| StopRange (shown lo hi : Q)
| SetStop (minutes : Q)
| StoppedServo
| InvalidSpeed (line : string)
| SpeedRange (shown lo hi : Q)
| SetSpeed (v : Q)
| InvalidRpm (line : string)
| RpmRange (shown lo hi : Q)
| SetRpm (v : Q)
| Magnetometer (x y z magsq : Q)
| InvalidCommand (line : string).

(** ** Speed correction (lines 116-120) *)

(** [servo_speed] after the increment or decrement, before the clamp. *)
Definition nudge (rpm now_rpm speed : Q) : Q :=
  let rpmdiff := Qabs (rpm - now_rpm) + (5 # 10) in
  if Qlt_bool now_rpm rpm then speed + rpmdiff / 1000
  else speed - rpmdiff / 1000.

(** [servo_speed] after the correction. *)
Definition speed_correction (rpm now_rpm speed : Q) : Q :=
  let s := nudge rpm now_rpm speed in
  if Qlt_bool 1 s then 1 else s.

(** [60*len(delist)/sum(delist)] *)
Definition rpm_now (l : list Q) : result Q :=
  fdiv (inject_Z (60 * len l)) (sum l).

(** ** Filters and zero-crossing detection (lines 96-121) *)

(** Lines 99-102. *)
Definition filter (st : state) (i : tick_in) : state :=
  let '(_, mag_y, _) := mag i in
  {| magval := mag_y;
     medval := (99 # 100) * medval st + (1 # 100) * mag_y;
     fltval := (8 # 10) * fltval st + (2 # 10) * mag_y;
     oldval := fltval st;
     timelast := timelast st; deltime := deltime st;
     delist := delist st; delistind := delistind st;
     stoptime := stoptime st; command := command st;
     servo_speed := servo_speed st; servo_rpm := servo_rpm st;
     new_stop := new_stop st; new_speed := new_speed st;
     new_rpm := new_rpm st; throttle := throttle st |}.

(** Line 104: the short filter has risen above the long one. *)
Definition candidate (st : state) : bool :=
  Qlt_bool (medval st) (fltval st) && Qle_bool (oldval st) (medval st).

(** Line 106: the time guard. *)
Definition guard (st : state) (i : tick_in) : bool :=
  Qlt_bool (timelast st + deltime st / 5) (t_guard1 i)
  && Qlt_bool (timelast st + (1 # 10)) (t_guard2 i).

(** A crossing is accepted in this pass ([st] is the state before it). *)
Definition accepted (st : state) (i : tick_in) : bool :=
  let st1 := filter st i in candidate st1 && guard st1 i.

(** Lines 108-121, run when a crossing is accepted. *)
Definition crossing (st : state) (i : tick_in) : result state :=
  let deltime' := t_delta i - timelast st in
  let timelast' := t_last i in
  let ind := (delistind st + 1)%Z in
  let ind := if (len (delist st) <=? ind)%Z then 0%Z else ind in
  do delist' <- setitem (delist st) (Z.to_nat ind) deltime' ;;
  let st1 :=
    {| magval := magval st; medval := medval st; fltval := fltval st;
       oldval := oldval st;
       timelast := timelast'; deltime := deltime';
       delist := delist'; delistind := ind;
       stoptime := stoptime st; command := command st;
       servo_speed := servo_speed st; servo_rpm := servo_rpm st;
       new_stop := new_stop st; new_speed := new_speed st;
       new_rpm := new_rpm st; throttle := throttle st |} in
  if Qeq_bool (servo_rpm st) 0 then Ok st1
  else
    do now_rpm <- rpm_now delist' ;;
    let speed := speed_correction (servo_rpm st) now_rpm (servo_speed st) in
    Ok {| magval := magval st; medval := medval st; fltval := fltval st;
          oldval := oldval st;
          timelast := timelast'; deltime := deltime';
          delist := delist'; delistind := ind;
          stoptime := stoptime st; command := command st;
          servo_speed := speed; servo_rpm := servo_rpm st;
          new_stop := new_stop st; new_speed := new_speed st;
          new_rpm := new_rpm st; throttle := Some speed |}.

(** Lines 96-121. *)
Definition sense (st : state) (i : tick_in) : result state :=
  let st1 := filter st i in
  if accepted st i then crossing st1 i else Ok st1.

(** ** Assignments to single globals *)

Definition set_servo_speed (st : state) (v : Q) : state :=
  {| magval := magval st; medval := medval st; fltval := fltval st;
     oldval := oldval st; timelast := timelast st; deltime := deltime st;
     delist := delist st; delistind := delistind st;
     stoptime := stoptime st; command := command st;
     servo_speed := v; servo_rpm := servo_rpm st;
     new_stop := new_stop st; new_speed := new_speed st;
     new_rpm := new_rpm st; throttle := throttle st |}.

Definition set_servo_rpm (st : state) (v : Q) : state :=
  {| magval := magval st; medval := medval st; fltval := fltval st;
     oldval := oldval st; timelast := timelast st; deltime := deltime st;
     delist := delist st; delistind := delistind st;
     stoptime := stoptime st; command := command st;
     servo_speed := servo_speed st; servo_rpm := v;
     new_stop := new_stop st; new_speed := new_speed st;
     new_rpm := new_rpm st; throttle := throttle st |}.

Definition set_throttle (st : state) (v : Q) : state :=
  {| magval := magval st; medval := medval st; fltval := fltval st;
     oldval := oldval st; timelast := timelast st; deltime := deltime st;
     delist := delist st; delistind := delistind st;
     stoptime := stoptime st; command := command st;
     servo_speed := servo_speed st; servo_rpm := servo_rpm st;
     new_stop := new_stop st; new_speed := new_speed st;
     new_rpm := new_rpm st; throttle := Some v |}.

Definition set_stoptime (st : state) (v : Q) : state :=
  {| magval := magval st; medval := medval st; fltval := fltval st;
     oldval := oldval st; timelast := timelast st; deltime := deltime st;
     delist := delist st; delistind := delistind st;
     stoptime := v; command := command st;
     servo_speed := servo_speed st; servo_rpm := servo_rpm st;
     new_stop := new_stop st; new_speed := new_speed st;
     new_rpm := new_rpm st; throttle := throttle st |}.

Definition set_command (st : state) (c : string) : state :=
  {| magval := magval st; medval := medval st; fltval := fltval st;
     oldval := oldval st; timelast := timelast st; deltime := deltime st;
     delist := delist st; delistind := delistind st;
     stoptime := stoptime st; command := c;
     servo_speed := servo_speed st; servo_rpm := servo_rpm st;
     new_stop := new_stop st; new_speed := new_speed st;
     new_rpm := new_rpm st; throttle := throttle st |}.

Definition set_new_stop (st : state) (v : Q) : state :=
  {| magval := magval st; medval := medval st; fltval := fltval st;
     oldval := oldval st; timelast := timelast st; deltime := deltime st;
     delist := delist st; delistind := delistind st;
     stoptime := stoptime st; command := command st;
     servo_speed := servo_speed st; servo_rpm := servo_rpm st;
     new_stop := Some v; new_speed := new_speed st;
     new_rpm := new_rpm st; throttle := throttle st |}.

Definition set_new_speed (st : state) (v : Q) : state :=
  {| magval := magval st; medval := medval st; fltval := fltval st;
     oldval := oldval st; timelast := timelast st; deltime := deltime st;
     delist := delist st; delistind := delistind st;
     stoptime := stoptime st; command := command st;
     servo_speed := servo_speed st; servo_rpm := servo_rpm st;
     new_stop := new_stop st; new_speed := Some v;
     new_rpm := new_rpm st; throttle := throttle st |}.

Definition set_new_rpm (st : state) (v : Q) : state :=
  {| magval := magval st; medval := medval st; fltval := fltval st;
     oldval := oldval st; timelast := timelast st; deltime := deltime st;
     delist := delist st; delistind := delistind st;
     stoptime := stoptime st; command := command st;
     servo_speed := servo_speed st; servo_rpm := servo_rpm st;
     new_stop := new_stop st; new_speed := new_speed st;
     new_rpm := Some v; throttle := throttle st |}.

(** ** Stop scheduler (lines 123-128) *)

(** Line 124: the deadline lies in the last second and the servo runs. *)
Definition stop_due (st : state) (timemon : Q) : bool :=
  Qlt_bool (stoptime st) timemon
  && Qlt_bool (timemon - 1) (stoptime st)
  && negb (Qeq_bool (servo_speed st) servo_zero_speed).

Definition check_stop (st : state) (timemon : Q) : state * list msg :=
  if stop_due st timemon then
    (set_throttle (set_servo_rpm (set_servo_speed st servo_zero_speed) 0)
                  servo_zero_speed,
     [StoppingNow])
  else (st, []).

(** ** Status lines (lines 130-138) *)

Definition sumsq (m : Q * Q * Q) : Q :=
  let '(x, y, z) := m in x * x + y * y + z * z.

Definition status (st : state) (i : tick_in) : result (list msg) :=
  let timemon := t_mon i in
  let stopmin :=
    if Qlt_bool timemon (stoptime st) then (stoptime st - timemon) / 60
    else -1 in
  let '(_, mag_y, _) := mag i in
  do r <- rpm_now (delist st) ;;
  do dbg <- (if show_debug then
               do mean <- fdiv (sum (delist st)) (inject_Z (len (delist st))) ;;
               Ok [Debug (medval st) (fltval st) (deltime st) mean]
             else Ok []) ;;
  Ok ([Status (servo_speed st) mag_y (sumsq (mag i)) r (servo_rpm st) stopmin]
        ++ dbg
        ++ (if (0 <? String.length (command st))%nat
            then [Echo (command st)] else [])).

(** ** Command interpreter (lines 140-222) *)

(** One turn of the input loop (lines 143-148): append the character, and on
    backspace or delete cut the last two characters. *)
Definition read_char (cmd : string) (c : ascii) : string :=
  let cmd := (cmd ++ String c EmptyString)%string in
  let n := nat_of_ascii c in
  if (n =? 127)%nat || (n =? 8)%nat then
    if (1 <? String.length cmd)%nat then drop_last2 cmd else EmptyString
  else cmd.

(** Lines 142-148 over the characters waiting on stdin. *)
Fixpoint drain (cmd : string) (cs : list ascii) : string * list msg :=
  match cs with
  | [] => (cmd, [])
  | c :: r =>
      let '(cmd', o) := drain (read_char cmd c) r in
      (cmd', (if show_debug then [NewChar c] else []) ++ o)
  end.

Section Interpreter.

(** [float(s)]: the number a string denotes, [None] where [float] raises
    [ValueError] (caught by the [except] of each command). *)
Variable float_of : string -> option Q.

Local Open Scope string_scope.

(** The branch the [if]/[elif] chain of lines 153-222 takes. *)
Inductive verb : Type := VHelp | VStop | VSpeed | VRpm | VRead | VInvalid.

Definition verb_of (fullcomm : string) : verb :=
  let s := strip fullcomm in
  if str_in "help" (take 4 s) then VHelp
  else if str_in "stop" (take 4 s) then VStop
  else if str_in "speed" (take 5 s) then VSpeed
  else if str_in "rpm" (take 3 s) then VRpm
  else if str_in "read" (take 4 s) then VRead
  else VInvalid.

(** Lines 158-176. *)
Definition do_stop (st : state) (fullcomm : string) (i : tick_in)
  : result (state * list msg) :=
  let s := strip fullcomm in
  if (5 <? String.length s)%nat then
    match float_of (strip (drop 4 s)) with
    | None => Ok (st, [InvalidStop fullcomm])
    | Some v =>
        let st := set_new_stop st v in
        if Qlt_bool v 0 || Qlt_bool 43200 v then
          match new_rpm st with
          | None => Raise NameError
          | Some shown => Ok (st, [StopRange shown 0 43200])
          end
        else Ok (set_stoptime st (t_cmd i + 60 * v), [SetStop v])
    end
  else
    Ok (set_throttle (set_servo_speed st servo_zero_speed) servo_zero_speed,
        [StoppedServo]).

(** Lines 179-193. *)
Definition do_speed (st : state) (fullcomm : string)
  : result (state * list msg) :=
  match float_of (strip (drop 6 (strip fullcomm))) with
  | None => Ok (st, [InvalidSpeed fullcomm])
  | Some v =>
      let st := set_new_speed st v in
      if Qlt_bool v servo_min_speed || Qlt_bool servo_max_speed v then
        Ok (st, [SpeedRange v servo_min_speed servo_max_speed])
      else Ok (set_throttle (set_servo_speed st v) v, [SetSpeed v])
  end.

(** Lines 196-213. *)
Definition do_rpm (st : state) (fullcomm : string)
  : result (state * list msg) :=
  match float_of (strip (drop 4 (strip fullcomm))) with
  | None => Ok (st, [InvalidRpm fullcomm])
  | Some v =>
      let st := set_new_rpm st v in
      if Qlt_bool v 0 || Qlt_bool 150 v then Ok (st, [RpmRange v 0 150])
      else
        let st := set_servo_rpm st v in
        if Qeq_bool (servo_speed st) servo_zero_speed then
          Ok (set_throttle (set_servo_speed st (1 # 10)) (1 # 10), [SetRpm v])
        else Ok (st, [SetRpm v])
  end.

(** Lines 153-222: run one completed line. *)
Definition dispatch (st : state) (fullcomm : string) (i : tick_in)
  : result (state * list msg) :=
  match verb_of fullcomm with
  | VHelp => Ok (st, [Help])
  | VStop => do_stop st fullcomm i
  | VSpeed => do_speed st fullcomm
  | VRpm => do_rpm st fullcomm
  | VRead =>
      let '(x, y, z) := mag_read i in
      Ok (st, [Magnetometer x y z (sumsq (mag_read i))])
  | VInvalid => Ok (st, [InvalidCommand fullcomm])
  end.

(** Lines 140-222. *)
Definition look_for_command (st : state) (i : tick_in)
  : result (state * list msg) :=
  match serial i with
  | [] => Ok (st, [])
  | cs =>
      let '(cmd, o) := drain (command st) cs in
      match split_newline cmd with
      | None => Ok (set_command st cmd, o)
      | Some (fullcomm, rest) =>
          do (st', o') <- dispatch (set_command st rest) fullcomm i ;;
          Ok (st', (o ++ o')%list)
      end
  end.

(** ** One pass of the main loop, and runs *)

Definition tick (st : state) (i : tick_in) : result (state * list msg) :=
  do st1 <- sense st i ;;
  let '(st2, o2) := check_stop st1 (t_mon i) in
  do o3 <- status st2 i ;;
  do (st3, o4) <- look_for_command st2 i ;;
  Ok (st3, (o2 ++ o3 ++ o4)%list).

Fixpoint run (st : state) (ins : list tick_in) : result (state * list msg) :=
  match ins with
  | [] => Ok (st, [])
  | i :: r =>
      do (st1, o1) <- tick st i ;;
      do (st2, o2) <- run st1 r ;;
      Ok (st2, (o1 ++ o2)%list)
  end.

End Interpreter.

(** ** A reader of decimal numerals

    [decimal] reads an optional sign, digits and at most one point, as
    [float] does on such text; it is the reader used to run the interpreter
    on concrete lines. *)

Definition digit_of (c : ascii) : option Z :=
  let n := nat_of_ascii c in
  if (48 <=? n)%nat && (n <=? 57)%nat then Some (Z.of_nat (n - 48)) else None.

Fixpoint digits (s : string) (acc : Z) (scale : positive) (dot : bool)
  (seen : bool) : option Q :=
  match s with
  | EmptyString => if seen then Some (acc # scale) else None
  | String c r =>
      if Ascii.eqb c "."%char then
        if dot then None else digits r acc scale true seen
      else
        match digit_of c with
        | Some d =>
            digits r (10 * acc + d)%Z
                   (if dot then (10 * scale)%positive else scale) dot true
        | None => None
        end
  end.

Definition decimal (s : string) : option Q :=
  match s with
  | String c r =>
      if Ascii.eqb c "-"%char then
        option_map Qopp (digits r 0%Z 1%positive false false)
      else if Ascii.eqb c "+"%char then digits r 0%Z 1%positive false false
      else digits s 0%Z 1%positive false false
  | EmptyString => None
  end.

(** A pass in which every clock reading is [t], the sensor reads [(0, y, 0)]
    and the characters of [chars] wait on stdin. *)
Definition pass_at (t y : Q) (chars : string) : tick_in :=
  {| mag := (0, y, 0);
     t_guard1 := t; t_guard2 := t; t_delta := t; t_last := t; t_mon := t;
     serial := list_ascii_of_string chars;
     t_cmd := t;
     mag_read := (0, y, 0) |}.

(** A line followed by its terminator. *)
Definition line (s : string) : string :=
  (s ++ String newline EmptyString)%string.

(** ** Vocabulary of the properties *)

(** The lines printed by the command interpreter when it runs a line. *)
Definition is_reply (m : msg) : bool :=
  match m with
  | StoppingNow | Status _ _ _ _ _ _ | Debug _ _ _ _ | Echo _ | NewChar _ =>
      false
  | _ => true
  end.

Definition is_stopping_now (m : msg) : bool :=
  match m with
  | StoppingNow => true
  | _ => false
  end.

(** The sensor values fed to the filters in a run. *)
Definition sample (i : tick_in) : Q := let '(_, y, _) := mag i in y.

Definition samples (ins : list tick_in) : list Q := map sample ins.

(** Least and greatest element of [x :: l]. *)
Definition minimum (x : Q) (l : list Q) : Q := fold_right Qmin x l.
Definition maximum (x : Q) (l : list Q) : Q := fold_right Qmax x l.

(** [v] lies between the least and the greatest element of [l]. *)
Definition within_inputs (l : list Q) (v : Q) : Prop :=
  match l with
  | [] => True
  | x :: r => minimum x r <= v /\ v <= maximum x r
  end.

(** The crossings accepted in a run from [st]: for each, the time recorded
    in [timelast] and the interval recorded in [deltime].  A pass that raises
    after its sensing step still contributes its crossing. *)
Fixpoint crossings (float_of : string -> option Q) (st : state)
  (ins : list tick_in) : list (Q * Q) :=
  match ins with
  | [] => []
  | i :: r =>
      match sense st i with
      | Raise _ => []
      | Ok sa =>
          (if accepted st i then [(timelast sa, deltime sa)] else [])
            ++ match tick float_of st i with
               | Ok (st1, _) => crossings float_of st1 r
               | Raise _ => []
               end
      end
  end.

(** Every crossing of the list comes more than 0.1 s, and more than a fifth
    of the interval measured before it, after the one before; [t] and [d]
    are the time and interval of the crossing preceding the list. *)
Fixpoint debounced (t d : Q) (l : list (Q * Q)) : Prop :=
  match l with
  | [] => True
  | (t', d') :: r =>
      t + (1 # 10) < t' /\ t + d / 5 < t' /\ debounced t' d' r
  end.

(** The intervals held by the history are five and all positive. *)
Definition history_ok (st : state) : Prop :=
  List.length (delist st) = 5%nat /\
  Forall (fun d => 0 < d) (delist st) /\
  (0 <= delistind st < 5)%Z.

(** The variables of the filters, the detector and the interval history. *)
Definition sensing (st : state) : Q * Q * Q * Q * Q * list Q * Z :=
  (medval st, fltval st, oldval st, timelast st, deltime st, delist st,
   delistind st).

(** The variables of the controller, the scheduler and the interpreter. *)
Definition control (st : state) : Q * Q * Q * string * option Q :=
  (servo_speed st, servo_rpm st, stoptime st, command st, throttle st).

(** Both averages lie in [[lo, hi]]. *)
Definition averages_within (lo hi : Q) (st : state) : Prop :=
  (lo <= medval st /\ medval st <= hi) /\ (lo <= fltval st /\ fltval st <= hi).

(** Four passes: [rpm 60] is set, a crossing is accepted at 1 s, the signal
    falls, and a second crossing is accepted at 3 s. *)
Definition two_crossings : list tick_in :=
  [pass_at (1 # 2) 0 (line "rpm 60"); pass_at 1 1 EmptyString;
   pass_at 2 (-10) EmptyString; pass_at 3 10 EmptyString].

(** ** Vocabulary of the further properties *)

(** The two codes the input loop treats as an erase: delete and backspace. *)
Definition is_erase (c : ascii) : bool :=
  (nat_of_ascii c =? 127)%nat || (nat_of_ascii c =? 8)%nat.

(** Line 102 in IEEE binary64 arithmetic, round to nearest, the arithmetic
    of a Python float on a desktop interpreter: [0.8] and [0.2] are the
    nearest binary64 numbers. *)
Definition short_filter_binary64 (fltval magval : float) : float :=
  (0x1.999999999999ap-1 * fltval + 0x1.999999999999ap-3 * magval)%float.

(** The short average after [n] passes with the constant sample [y], from
    the start-up value 0.0, in binary64. *)
Fixpoint short_average_binary64 (n : nat) (y : float) : float :=
  match n with
  | O => 0%float
  | S k => short_filter_binary64 (short_average_binary64 k y) y
  end.

(** The output is at most the maximum, and the servo holds the output: the
    throttle is the current output, or it has never been written and the
    output is still the neutral value of start-up. *)
Definition servo_ok (st : state) : Prop :=
  servo_speed st <= servo_max_speed /\
  (throttle st = Some (servo_speed st) \/
   (throttle st = None /\ servo_speed st = servo_zero_speed)).

(** A pass with nothing to read whose clock reading is outside the second
    that follows the deadline [d]. *)
Definition idle_pass (d : Q) (i : tick_in) : Prop :=
  serial i = [] /\ (t_mon i <= d \/ d + 1 <= t_mon i).

(** The state a fallible step ends in, without what it printed. *)
Definition final_state (r : result (state * list msg)) : result state :=
  do (st, _) <- r ;; Ok st.

(** * Properties *)

(** Case analysis on every [match] and [if] of a hypothesis. *)
Ltac bind_cases H :=
  repeat match type of H with
    | context [match ?x with _ => _ end] =>
        let E := fresh "E" in destruct x eqn:E; simpl in H;
        try discriminate H
    | context [if ?b then _ else _] =>
        let E := fresh "E" in destruct b eqn:E; simpl in H;
        try discriminate H
    end.

(** ** Arithmetic helpers *)

Lemma Qlt_bool_iff (a b : Q) : Qlt_bool a b = true <-> a < b.
Proof.
  unfold Qlt_bool. rewrite negb_true_iff.
  split; intro H.
  - apply Qnot_le_lt. intro Hle. apply Qle_bool_iff in Hle. congruence.
  - destruct (Qle_bool b a) eqn:E; [|reflexivity].
    apply Qle_bool_iff in E. apply Qle_not_lt in E. contradiction.
Qed.

Lemma Qlt_bool_false (a b : Q) : Qlt_bool a b = false <-> b <= a.
Proof.
  unfold Qlt_bool. rewrite negb_false_iff. apply Qle_bool_iff.
Qed.

Lemma Qeq_bool_false (a b : Q) : Qeq_bool a b = false <-> ~ a == b.
Proof.
  split.
  - intros H E. apply Qeq_bool_iff in E. congruence.
  - intro H. destruct (Qeq_bool a b) eqn:E; [|reflexivity].
    apply Qeq_bool_iff in E. contradiction.
Qed.

Lemma Qsign_pos (q : Q) : 0 < q -> Qsign q = 1%Z.
Proof.
  destruct q as [n d]. unfold Qlt, Qsign. simpl. intro H.
  apply Z.sgn_pos. lia.
Qed.

Lemma Qsign_neg (q : Q) : q < 0 -> Qsign q = (-1)%Z.
Proof.
  destruct q as [n d]. unfold Qlt, Qsign. simpl. intro H.
  apply Z.sgn_neg. lia.
Qed.

Lemma Qsign_zero (q : Q) : q == 0 -> Qsign q = 0%Z.
Proof.
  destruct q as [n d]. unfold Qeq, Qsign. simpl. intro H.
  apply Z.sgn_null_iff. lia.
Qed.

(** ** Speed corrector *)

Lemma rpmdiff_pos (rpm now_rpm : Q) :
  0 < (Qabs (rpm - now_rpm) + (5 # 10)) / 1000.
Proof.
  pose proof (Qabs_nonneg (rpm - now_rpm)) as H.
  apply Qlt_shift_div_l; lra.
Qed.

Lemma clamp_le_max (s : Q) : (if Qlt_bool 1 s then 1 else s) <= 1.
Proof.
  destruct (Qlt_bool 1 s) eqn:E.
  - apply Qle_refl.
  - now apply Qlt_bool_false.
Qed.

(** C3. After a correction step the actuator output is at most the
    configured maximum 1.0, whatever the target rate, the estimated rate and
    the output before the step. *)
Theorem speed_correction_le_max (rpm now_rpm speed : Q) :
  speed_correction rpm now_rpm speed <= servo_max_speed.
Proof.
  unfold speed_correction, servo_max_speed. apply clamp_le_max.
Qed.

(** The same bound on the state a pass leaves after an accepted crossing
    with a target rate set; the value is also the one written to the
    servo. *)
Lemma crossing_speed_le_max (st st' : state) (i : tick_in) :
  crossing st i = Ok st' ->
  Qeq_bool (servo_rpm st) 0 = false ->
  servo_speed st' <= servo_max_speed /\ throttle st' = Some (servo_speed st').
Proof.
  unfold crossing. intros H Hrpm.
  destruct (setitem _ _ _) as [l|e]; simpl in H; [|discriminate].
  rewrite Hrpm in H.
  destruct (rpm_now l) as [r|e]; simpl in H; [|discriminate].
  injection H as <-. simpl. split; [apply clamp_le_max|reflexivity].
Qed.

Lemma nudge_up (rpm now_rpm speed : Q) :
  now_rpm < rpm -> 0 < nudge rpm now_rpm speed - speed.
Proof.
  intro H. unfold nudge. apply Qlt_bool_iff in H. rewrite H.
  pose proof (rpmdiff_pos rpm now_rpm). lra.
Qed.

Lemma nudge_down (rpm now_rpm speed : Q) :
  rpm <= now_rpm -> nudge rpm now_rpm speed - speed < 0.
Proof.
  intro H. unfold nudge. apply Qlt_bool_false in H. rewrite H.
  pose proof (rpmdiff_pos rpm now_rpm). lra.
Qed.

(** C8 as stated fails: with target rate and estimated rate both 60 the
    difference has sign 0, yet the step applied to the output is negative. *)
Lemma step_sign_counterexample :
  Qsign (60 - 60) = 0%Z /\
  Qsign (nudge 60 60 (1 # 10) - (1 # 10)) = (-1)%Z /\
  Qsign (nudge 60 60 (1 # 10) - (1 # 10)) <> Qsign (60 - 60).
Proof.
  repeat split; vm_compute; congruence.
Qed.

(** C8, amended. The step applied to the output before the upper clamp has
    the sign of (target rate - estimated rate) whenever the two rates differ;
    when they are equal the step is negative. *)
Theorem step_sign (rpm now_rpm speed : Q) :
  Qsign (nudge rpm now_rpm speed - speed)
  = if Qeq_bool rpm now_rpm then (-1)%Z else Qsign (rpm - now_rpm).
Proof.
  destruct (Qlt_le_dec now_rpm rpm) as [Hlt|Hle].
  - rewrite (Qsign_pos _ (nudge_up rpm now_rpm speed Hlt)).
    assert (Hne : Qeq_bool rpm now_rpm = false)
      by (apply Qeq_bool_false; intro E; rewrite E in Hlt; lra).
    rewrite Hne. symmetry. apply Qsign_pos. lra.
  - rewrite (Qsign_neg _ (nudge_down rpm now_rpm speed Hle)).
    destruct (Qeq_bool rpm now_rpm) eqn:E; [reflexivity|].
    apply Qeq_bool_false in E. symmetry. apply Qsign_neg.
    assert (rpm < now_rpm) by (apply Qle_lteq in Hle; tauto). lra.
Qed.

(** Equal target and estimated rates occur in a run: after [rpm 60] and one
    crossing measured 1 s after start, the estimate is 60 and the output
    drops from 0.1 to 0.0995. *)
Example equal_rates_reached :
  exists st o,
    run decimal (init 0 0)
        [pass_at (1 # 2) 0 (line "rpm 60"); pass_at 1 1 EmptyString]
    = Ok (st, o) /\
    servo_rpm st == 60 /\ sum (delist st) == 5 /\
    servo_speed st == 995 # 10000.
Proof.
  eexists. eexists. split; [vm_compute; reflexivity|].
  repeat split; vm_compute; reflexivity.
Qed.

(** ** Command interpreter *)

Lemma do_stop_now (float_of : string -> option Q) (st : state)
  (fullcomm : string) (i : tick_in) :
  (String.length (strip fullcomm) <= 5)%nat ->
  do_stop float_of st fullcomm i
  = Ok (set_throttle (set_servo_speed st servo_zero_speed) servo_zero_speed,
        [StoppedServo]).
Proof.
  intro H. unfold do_stop.
  apply Nat.ltb_ge in H. now rewrite H.
Qed.

(** A bare stop leaves the target rate as it was, in every state. *)
Lemma stop_now_frame (float_of : string -> option Q) (st st' : state)
  (fullcomm : string) (i : tick_in) (o : list msg) :
  verb_of fullcomm = VStop ->
  (String.length (strip fullcomm) <= 5)%nat ->
  dispatch float_of st fullcomm i = Ok (st', o) ->
  servo_speed st' = servo_zero_speed /\
  throttle st' = Some servo_zero_speed /\
  servo_rpm st' = servo_rpm st.
Proof.
  intros Hv Hlen. unfold dispatch. rewrite Hv.
  rewrite (do_stop_now _ _ _ _ Hlen). intro H. injection H as <- _.
  repeat split.
Qed.

(** C1 on the code. After [rpm 30], the line [stop] sets the output to the
    neutral value and writes it to the servo, but the target rate is still
    30, not 0. *)
Theorem stop_now_keeps_target :
  exists st o,
    run decimal (init 0 0)
        [pass_at 1 0 (line "rpm 30"); pass_at 2 0 (line "stop")]
    = Ok (st, o) /\
    In StoppedServo o /\
    servo_speed st = servo_zero_speed /\
    throttle st = Some servo_zero_speed /\
    servo_rpm st = 30 /\ ~ servo_rpm st == 0.
Proof.
  eexists. eexists. split; [vm_compute; reflexivity|].
  split; [simpl; tauto|].
  repeat split. vm_compute. discriminate.
Qed.

Lemma do_stop_range_unbound (float_of : string -> option Q) (st : state)
  (fullcomm : string) (i : tick_in) (v : Q) :
  (5 < String.length (strip fullcomm))%nat ->
  float_of (strip (drop 4 (strip fullcomm))) = Some v ->
  v < 0 \/ 43200 < v ->
  new_rpm st = None ->
  do_stop float_of st fullcomm i = Raise NameError.
Proof.
  intros Hlen Hp Hr Hn. unfold do_stop.
  apply Nat.ltb_lt in Hlen. rewrite Hlen, Hp.
  assert (E : Qlt_bool v 0 || Qlt_bool 43200 v = true).
  { apply orb_true_iff. destruct Hr as [Hr|Hr]; [left|right];
      now apply Qlt_bool_iff. }
  rewrite E. simpl. now rewrite Hn.
Qed.

Lemma do_stop_range_bound (float_of : string -> option Q) (st : state)
  (fullcomm : string) (i : tick_in) (v shown : Q) :
  (5 < String.length (strip fullcomm))%nat ->
  float_of (strip (drop 4 (strip fullcomm))) = Some v ->
  v < 0 \/ 43200 < v ->
  new_rpm st = Some shown ->
  do_stop float_of st fullcomm i
  = Ok (set_new_stop st v, [StopRange shown 0 43200]).
Proof.
  intros Hlen Hp Hr Hn. unfold do_stop.
  apply Nat.ltb_lt in Hlen. rewrite Hlen, Hp.
  assert (E : Qlt_bool v 0 || Qlt_bool 43200 v = true).
  { apply orb_true_iff. destruct Hr as [Hr|Hr]; [left|right];
      now apply Qlt_bool_iff. }
  rewrite E. simpl. now rewrite Hn.
Qed.

(** C2 on the code. Sent as the first command after start, the line
    [stop 999999] ends the program with a NameError: the range message of the
    stop command formats [new_rpm], which is unbound until an rpm command has
    been parsed. *)
Theorem stop_out_of_range_crashes :
  run decimal (init 0 0) [pass_at 1 0 (line "stop 999999")] = Raise NameError.
Proof.
  vm_compute. reflexivity.
Qed.

(** Once an rpm has been parsed, the same line is rejected without a change
    of output, target rate or deadline, and the message shows the rpm last
    parsed (here 200) in place of the stop time. *)
Example stop_out_of_range_reports_rpm :
  exists st o,
    run decimal (init 0 0)
        [pass_at 1 0 (line "rpm 200"); pass_at 2 0 (line "stop 999999")]
    = Ok (st, o) /\
    List.filter is_reply o = [RpmRange 200 0 150; StopRange 200 0 43200] /\
    servo_speed st = servo_speed (init 0 0) /\
    servo_rpm st = servo_rpm (init 0 0) /\
    stoptime st = stoptime (init 0 0).
Proof.
  eexists. eexists. split; [vm_compute; reflexivity|].
  repeat split.
Qed.

(** A line whose argument does not parse is answered by a message naming the
    line, and nothing changes. *)
Lemma parse_failure_no_mutation (float_of : string -> option Q) (st : state)
  (fullcomm : string) (i : tick_in) :
  match verb_of fullcomm with
  | VStop =>
      (5 < String.length (strip fullcomm))%nat ->
      float_of (strip (drop 4 (strip fullcomm))) = None ->
      dispatch float_of st fullcomm i = Ok (st, [InvalidStop fullcomm])
  | VSpeed =>
      float_of (strip (drop 6 (strip fullcomm))) = None ->
      dispatch float_of st fullcomm i = Ok (st, [InvalidSpeed fullcomm])
  | VRpm =>
      float_of (strip (drop 4 (strip fullcomm))) = None ->
      dispatch float_of st fullcomm i = Ok (st, [InvalidRpm fullcomm])
  | _ => True
  end.
Proof.
  destruct (verb_of fullcomm) eqn:Hv; trivial; unfold dispatch; rewrite Hv.
  - intros Hlen Hp. unfold do_stop.
    apply Nat.ltb_lt in Hlen. now rewrite Hlen, Hp.
  - intros Hp. unfold do_speed. now rewrite Hp.
  - intros Hp. unfold do_rpm. now rewrite Hp.
Qed.

(** An rpm or a speed outside its range is answered by a message showing the
    value; output, target rate and deadline stay as they were. *)
Lemma rpm_out_of_range (float_of : string -> option Q) (st : state)
  (fullcomm : string) (v : Q) :
  float_of (strip (drop 4 (strip fullcomm))) = Some v ->
  v < 0 \/ 150 < v ->
  do_rpm float_of st fullcomm = Ok (set_new_rpm st v, [RpmRange v 0 150]).
Proof.
  intros Hp Hr. unfold do_rpm. rewrite Hp.
  assert (E : Qlt_bool v 0 || Qlt_bool 150 v = true).
  { apply orb_true_iff. destruct Hr as [Hr|Hr]; [left|right];
      now apply Qlt_bool_iff. }
  now rewrite E.
Qed.

Lemma speed_out_of_range (float_of : string -> option Q) (st : state)
  (fullcomm : string) (v : Q) :
  float_of (strip (drop 6 (strip fullcomm))) = Some v ->
  v < servo_min_speed \/ servo_max_speed < v ->
  do_speed float_of st fullcomm
  = Ok (set_new_speed st v, [SpeedRange v servo_min_speed servo_max_speed]).
Proof.
  intros Hp Hr. unfold do_speed. rewrite Hp.
  assert (E : Qlt_bool v servo_min_speed || Qlt_bool servo_max_speed v = true).
  { apply orb_true_iff. destruct Hr as [Hr|Hr]; [left|right];
      now apply Qlt_bool_iff. }
  now rewrite E.
Qed.

(** C9. When an rpm command with a value in [0, 150] is run while the output
    equals the neutral value, the target rate becomes the commanded value and
    the output becomes 0.1 and is written to the servo. *)
Theorem rpm_bootstrap (float_of : string -> option Q) (st : state)
  (fullcomm : string) (i : tick_in) (v : Q) :
  verb_of fullcomm = VRpm ->
  float_of (strip (drop 4 (strip fullcomm))) = Some v ->
  0 <= v -> v <= 150 ->
  servo_speed st == servo_zero_speed ->
  exists st',
    dispatch float_of st fullcomm i = Ok (st', [SetRpm v]) /\
    servo_rpm st' = v /\
    servo_speed st' = 1 # 10 /\
    throttle st' = Some (1 # 10) /\
    stoptime st' = stoptime st.
Proof.
  intros Hv Hp Hlo Hhi Hz. unfold dispatch. rewrite Hv.
  unfold do_rpm. rewrite Hp.
  assert (E : Qlt_bool v 0 || Qlt_bool 150 v = false).
  { apply orb_false_iff. split; now apply Qlt_bool_false. }
  rewrite E. cbn [servo_speed set_servo_rpm set_new_rpm].
  apply Qeq_bool_iff in Hz. rewrite Hz.
  eexists. split; [reflexivity|]. repeat split.
Qed.

Lemma rpm_bootstrap_witness :
  exists st',
    dispatch decimal (init 0 0) "rpm 30" (pass_at 1 0 EmptyString)
    = Ok (st', [SetRpm 30]) /\
    servo_rpm st' = 30 /\
    servo_speed st' = 1 # 10 /\
    throttle st' = Some (1 # 10) /\
    stoptime st' = stoptime (init 0 0).
Proof.
  apply (rpm_bootstrap decimal (init 0 0) "rpm 30"
           (pass_at 1 0 EmptyString) 30).
  - reflexivity.
  - reflexivity.
  - unfold Qle; simpl; lia.
  - unfold Qle; simpl; lia.
  - reflexivity.
Defined.

(** ** What each step of a pass leaves alone *)

Lemma sense_frame (st sa : state) (i : tick_in) :
  sense st i = Ok sa ->
  command sa = command st /\ stoptime sa = stoptime st /\
  servo_rpm sa = servo_rpm st /\
  (Qeq_bool (servo_rpm st) 0 = true ->
   servo_speed sa = servo_speed st /\ throttle sa = throttle st).
Proof.
  unfold sense, crossing, bind. intro H.
  destruct (mag i) as [[x y] z] eqn:Em.
  bind_cases H; injection H as <-; unfold filter; rewrite ?Em; simpl;
    repeat split; try reflexivity;
    unfold filter in *; rewrite ?Em in *; simpl in *; congruence.
Qed.

Lemma sense_rejected (st sa : state) (i : tick_in) :
  sense st i = Ok sa -> accepted st i = false ->
  timelast sa = timelast st /\ deltime sa = deltime st /\
  delist sa = delist st /\ delistind sa = delistind st /\
  control sa = control st.
Proof.
  unfold sense. intros H Ha. rewrite Ha in H. injection H as <-.
  unfold filter, control. destruct (mag i) as [[x y] z]. simpl. tauto.
Qed.

Lemma check_stop_frame (st st' : state) (t : Q) (o : list msg) :
  check_stop st t = (st', o) ->
  sensing st' = sensing st /\ command st' = command st /\
  stoptime st' = stoptime st /\
  forallb (fun m => negb (is_reply m)) o = true.
Proof.
  unfold check_stop. destruct (stop_due st t); intro H;
    injection H as <- <-; repeat split.
Qed.

Lemma status_not_reply (st : state) (i : tick_in) (o : list msg) :
  status st i = Ok o -> forallb (fun m => negb (is_reply m)) o = true.
Proof.
  unfold status, bind, show_debug. destruct (mag i) as [[x y] z]. intro H.
  destruct (rpm_now (delist st)) as [r|e]; [|discriminate].
  destruct (fdiv _ _) as [mean|e]; [|discriminate].
  injection H as <-. simpl.
  destruct (0 <? String.length (command st))%nat; reflexivity.
Qed.

Lemma dispatch_frame (float_of : string -> option Q) (st st' : state)
  (fullcomm : string) (i : tick_in) (o : list msg) :
  dispatch float_of st fullcomm i = Ok (st', o) ->
  sensing st' = sensing st /\ command st' = command st /\
  forallb (fun m => negb (is_stopping_now m)) o = true.
Proof.
  unfold dispatch, do_stop, do_speed, do_rpm. intro H.
  destruct (mag_read i) as [[x y] z].
  bind_cases H; injection H as <- <-; repeat split.
Qed.

Lemma drain_not_reply (cs : list ascii) (cmd cmd' : string) (o : list msg) :
  drain cmd cs = (cmd', o) ->
  forallb (fun m => negb (is_stopping_now m)) o = true.
Proof.
  revert cmd cmd' o. induction cs as [|c r IH]; intros cmd cmd' o H.
  - injection H as _ <-. reflexivity.
  - simpl in H. destruct (drain (read_char cmd c) r) as [c1 o1] eqn:E.
    injection H as _ <-. simpl. eapply IH. exact E.
Qed.

Lemma look_for_command_frame (float_of : string -> option Q)
  (st st' : state) (i : tick_in) (o : list msg) :
  look_for_command float_of st i = Ok (st', o) ->
  sensing st' = sensing st /\
  forallb (fun m => negb (is_stopping_now m)) o = true.
Proof.
  unfold look_for_command. intro H.
  destruct (serial i) as [|c r] eqn:Es.
  - injection H as <- <-. split; reflexivity.
  - destruct (drain (command st) (c :: r)) as [cmd o1] eqn:Ed.
    pose proof (drain_not_reply _ _ _ _ Ed) as Ho1.
    destruct (split_newline cmd) as [[fullcomm rest]|].
    + destruct (dispatch float_of (set_command st rest) fullcomm i)
        as [[s2 o2]|e] eqn:Edis; simpl in H; [|discriminate].
      injection H as <- <-.
      apply dispatch_frame in Edis. destruct Edis as (Hs & _ & Ho2).
      split; [rewrite Hs; reflexivity|].
      now rewrite forallb_app, Ho1, Ho2.
    + injection H as <- <-. split; [reflexivity|exact Ho1].
Qed.

Lemma look_without_bytes (float_of : string -> option Q) (st : state)
  (i : tick_in) :
  serial i = [] -> look_for_command float_of st i = Ok (st, []).
Proof.
  intro Hs. unfold look_for_command. now rewrite Hs.
Qed.

Lemma tick_without_bytes (float_of : string -> option Q) (st st' : state)
  (i : tick_in) (o : list msg) :
  serial i = [] ->
  tick float_of st i = Ok (st', o) ->
  command st' = command st /\
  forallb (fun m => negb (is_reply m)) o = true /\
  exists sa, sense st i = Ok sa /\ st' = fst (check_stop sa (t_mon i)).
Proof.
  intro Hs. unfold tick.
  destruct (sense st i) as [sa|e] eqn:Esense; simpl; [|discriminate].
  destruct (check_stop sa (t_mon i)) as [st2 o2] eqn:Estop.
  destruct (status st2 i) as [o3|e] eqn:Estat; simpl; [|discriminate].
  rewrite (look_without_bytes _ _ _ Hs). simpl. intro H.
  injection H as <- <-.
  assert (Hfst : st2 = fst (check_stop sa (t_mon i))) by now rewrite Estop.
  apply check_stop_frame in Estop. destruct Estop as (_ & Hc & _ & Ho2).
  apply status_not_reply in Estat.
  apply sense_frame in Esense as Hf. destruct Hf as (Hc' & _).
  split; [congruence|]. split.
  - now rewrite !forallb_app, Ho2, Estat.
  - exists sa. split; [reflexivity|exact Hfst].
Qed.

(** A pass that prints a command reply has read at least one character. *)
Lemma reply_needs_bytes (float_of : string -> option Q) (st st' : state)
  (i : tick_in) (o : list msg) :
  tick float_of st i = Ok (st', o) ->
  existsb is_reply o = true ->
  serial i <> [].
Proof.
  intros Ht Hr Hs.
  destruct (tick_without_bytes _ _ _ _ _ Hs Ht) as (_ & Hn & _).
  clear - Hr Hn. induction o as [|m o IH]; [discriminate|].
  simpl in *. destruct (is_reply m); simpl in *; [discriminate|auto].
Qed.

(** C10. In a pass with no character waiting on stdin the interpreter does
    nothing: the line buffer stays as it is, also when it holds a complete
    line, and no command is run; a pass in which a command is run (one that
    prints a command reply) has read at least one character. *)
Theorem no_bytes_no_dispatch (float_of : string -> option Q) (st : state)
  (i : tick_in) :
  (serial i = [] ->
   look_for_command float_of st i = Ok (st, []) /\
   forall st' o,
     tick float_of st i = Ok (st', o) ->
     command st' = command st /\
     forallb (fun m => negb (is_reply m)) o = true /\
     exists sa, sense st i = Ok sa /\ st' = fst (check_stop sa (t_mon i)))
  /\
  (forall st' o,
     tick float_of st i = Ok (st', o) ->
     existsb is_reply o = true -> serial i <> []).
Proof.
  split.
  - intro Hs. split; [now apply look_without_bytes|].
    intros st' o Ht. now apply (tick_without_bytes float_of st st' i o).
  - intros st' o. apply reply_needs_bytes.
Qed.

Lemma no_bytes_no_dispatch_witness :
  let st := set_command (init 0 0) (line "help") in
  let i := pass_at 1 0 EmptyString in
  split_newline (command st) = Some ("help"%string, EmptyString) /\
  look_for_command decimal st i = Ok (st, []) /\
  forall st' o,
    tick decimal st i = Ok (st', o) ->
    command st' = command st /\
    forallb (fun m => negb (is_reply m)) o = true /\
    exists sa, sense st i = Ok sa /\ st' = fst (check_stop sa (t_mon i)).
Proof.
  intros st i. split; [reflexivity|].
  apply (proj1 (no_bytes_no_dispatch decimal st i)). reflexivity.
Defined.

(** A complete line does get left in the buffer: when [ab], a newline,
    [help] and a newline arrive in one pass, the first line is run and
    [help] stays buffered with its terminator; the next pass, with nothing
    to read, leaves it there, and it is run in the pass after, when one more
    character arrives. *)
Example buffered_line_waits :
  exists s1 o1 s2 o2 s3 o3,
    tick decimal (init 0 0)
         (pass_at 1 0 ("a" ++ line "b" ++ line "help")) = Ok (s1, o1) /\
    command s1 = line "help" /\
    List.filter is_reply o1 = [InvalidCommand "ab"] /\
    tick decimal s1 (pass_at 2 0 EmptyString) = Ok (s2, o2) /\
    command s2 = line "help" /\ List.filter is_reply o2 = [] /\
    tick decimal s2 (pass_at 3 0 "x") = Ok (s3, o3) /\
    command s3 = "x"%string /\ List.filter is_reply o3 = [Help].
Proof.
  do 6 eexists.
  split; [vm_compute; reflexivity|].
  split; [reflexivity|]. split; [reflexivity|].
  split; [vm_compute; reflexivity|].
  split; [reflexivity|]. split; [reflexivity|].
  split; [vm_compute; reflexivity|].
  split; reflexivity.
Qed.

(** ** Filters *)

Lemma sense_filters (st sa : state) (i : tick_in) :
  sense st i = Ok sa ->
  medval sa = (99 # 100) * medval st + (1 # 100) * sample i /\
  fltval sa = (8 # 10) * fltval st + (2 # 10) * sample i /\
  oldval sa = fltval st.
Proof.
  unfold sense, crossing, bind, sample. intro H.
  destruct (mag i) as [[x y] z] eqn:Em.
  bind_cases H; injection H as <-; unfold filter; rewrite Em; simpl;
    repeat split.
Qed.

Lemma tick_sensing (float_of : string -> option Q) (st st' : state)
  (i : tick_in) (o : list msg) :
  tick float_of st i = Ok (st', o) ->
  exists sa, sense st i = Ok sa /\ sensing st' = sensing sa.
Proof.
  unfold tick.
  destruct (sense st i) as [sa|e] eqn:Esense; simpl; [|discriminate].
  destruct (check_stop sa (t_mon i)) as [st2 o2] eqn:Estop.
  destruct (status st2 i) as [o3|e]; simpl; [|discriminate].
  destruct (look_for_command float_of st2 i) as [[st3 o4]|e] eqn:El;
    simpl; [|discriminate].
  intro H. injection H as <- <-.
  apply check_stop_frame in Estop. destruct Estop as (Hs & _).
  apply look_for_command_frame in El. destruct El as (Hs' & _).
  exists sa. split; [reflexivity|congruence].
Qed.

Lemma tick_averages_within (float_of : string -> option Q) (lo hi : Q)
  (st st' : state) (i : tick_in) (o : list msg) :
  averages_within lo hi st ->
  lo <= sample i /\ sample i <= hi ->
  tick float_of st i = Ok (st', o) ->
  averages_within lo hi st'.
Proof.
  intros [[Hm1 Hm2] [Hf1 Hf2]] [Hy1 Hy2] Ht.
  apply tick_sensing in Ht. destruct Ht as (sa & Hsa & Hs).
  apply sense_filters in Hsa. destruct Hsa as (Em & Ef & _).
  unfold sensing in Hs. injection Hs as Hm Hf _ _ _ _ _.
  unfold averages_within. rewrite Hm, Hf, Em, Ef. repeat split; lra.
Qed.

Lemma run_averages_within (float_of : string -> option Q) (lo hi : Q)
  (ins : list tick_in) :
  forall (st st' : state) (o : list msg),
    averages_within lo hi st ->
    Forall (fun i => lo <= sample i /\ sample i <= hi) ins ->
    run float_of st ins = Ok (st', o) ->
    averages_within lo hi st'.
Proof.
  induction ins as [|i r IH]; intros st st' o Hst Hin Hrun.
  - simpl in Hrun. injection Hrun as <- _. exact Hst.
  - simpl in Hrun. inversion Hin as [|? ? Hi Hr]; subst.
    destruct (tick float_of st i) as [[s1 o1]|e] eqn:Et; simpl in Hrun;
      [|discriminate].
    destruct (run float_of s1 r) as [[s2 o2]|e] eqn:Er; simpl in Hrun;
      [|discriminate].
    injection Hrun as <- _.
    eapply IH; [|exact Hr|exact Er].
    eapply tick_averages_within; eauto.
Qed.

Lemma minimum_le_base (x : Q) (l : list Q) : minimum x l <= x.
Proof.
  induction l as [|y l IH]; simpl.
  - apply Qle_refl.
  - eapply Qle_trans; [apply Q.le_min_r|exact IH].
Qed.

Lemma maximum_ge_base (x : Q) (l : list Q) : x <= maximum x l.
Proof.
  induction l as [|y l IH]; simpl.
  - apply Qle_refl.
  - eapply Qle_trans; [exact IH|apply Q.le_max_r].
Qed.

Lemma minimum_maximum_bound (x : Q) (l : list Q) :
  Forall (fun y => minimum x l <= y /\ y <= maximum x l) l.
Proof.
  induction l as [|y l IH]; constructor.
  - simpl. split; [apply Q.le_min_l|apply Q.le_max_l].
  - simpl. eapply Forall_impl; [|exact IH].
    intros a [H1 H2]. split.
    + eapply Qle_trans; [apply Q.le_min_r|exact H1].
    + eapply Qle_trans; [exact H2|apply Q.le_max_r].
Qed.

(** C7 as stated fails: the filters start at 0, so after one pass with the
    sample 50 the long average is 0.5 and the short average is 10, both
    below 50, the least (and only) input. *)
Lemma ema_bounds_counterexample :
  exists st o,
    run decimal (init 0 0) [pass_at 1 50 EmptyString] = Ok (st, o) /\
    samples [pass_at 1 50 EmptyString] = [50] /\
    medval st == 1 # 2 /\ fltval st == 10 /\
    ~ within_inputs (samples [pass_at 1 50 EmptyString]) (medval st) /\
    ~ within_inputs (samples [pass_at 1 50 EmptyString]) (fltval st).
Proof.
  eexists. eexists. split; [vm_compute; reflexivity|].
  split; [reflexivity|].
  split; [vm_compute; reflexivity|]. split; [vm_compute; reflexivity|].
  split; intros [H _]; vm_compute in H; apply H; reflexivity.
Qed.

(** C7, amended. With the filter updates computed in exact arithmetic,
    from the initial filter state and after any finite sequence of samples
    the long-term and the short-term average lie between the least and the
    greatest of 0 (the initial value of both filters) and the samples.  The
    bound is one of exact arithmetic: under floating-point rounding the
    averages can pass it by rounding error. *)
Theorem ema_bounds (float_of : string -> option Q) (t0 t1 : Q)
  (ins : list tick_in) (st : state) (o : list msg) :
  run float_of (init t0 t1) ins = Ok (st, o) ->
  (minimum 0 (samples ins) <= medval st /\
   medval st <= maximum 0 (samples ins)) /\
  (minimum 0 (samples ins) <= fltval st /\
   fltval st <= maximum 0 (samples ins)).
Proof.
  intro Hrun.
  apply (run_averages_within float_of _ _ ins (init t0 t1) st o); trivial.
  - pose proof (minimum_le_base 0 (samples ins)).
    pose proof (maximum_ge_base 0 (samples ins)).
    unfold averages_within. simpl. tauto.
  - pose proof (minimum_maximum_bound 0 (samples ins)) as H.
    unfold samples in *. rewrite Forall_map in H. exact H.
Qed.

Lemma ema_bounds_witness :
  let ins := [pass_at 1 50 EmptyString; pass_at 2 (-3) EmptyString] in
  exists st' o,
    run decimal (init 0 0) ins = Ok (st', o) /\
    (minimum 0 (samples ins) <= medval st' /\
     medval st' <= maximum 0 (samples ins)) /\
    (minimum 0 (samples ins) <= fltval st' /\
     fltval st' <= maximum 0 (samples ins)).
Proof.
  intros ins.
  destruct (run decimal (init 0 0) ins) as [[st' o]|e] eqn:E.
  - exists st', o. split; [reflexivity|].
    exact (ema_bounds decimal 0 0 ins st' o E).
  - vm_compute in E. discriminate E.
Defined.

(** Rounding does pass the bound.  In binary64 the nearest numbers to 0.8
    and 0.2 add up to more than 1, and with the constant sample 3.0 the
    short average is above 3.0 after 160 passes, and stays there. *)
Example short_average_exceeds_in_binary64 :
  PrimFloat.ltb 3 (short_average_binary64 160 3) = true /\
  PrimFloat.ltb 3 (short_average_binary64 1000 3) = true /\
  PrimFloat.leb (short_average_binary64 159 3) 3 = true.
Proof.
  repeat split; vm_compute; reflexivity.
Qed.

(** ** Interval history and rate estimate *)

Lemma setitem_spec (P : Q -> Prop) (x : Q) :
  forall (l : list Q) (n : nat),
    (n < List.length l)%nat ->
    exists l',
      setitem l n x = Ok l' /\
      List.length l' = List.length l /\
      (Forall P l -> P x -> Forall P l').
Proof.
  induction l as [|y l IH]; intros n Hn; simpl in Hn; [lia|].
  destruct n as [|n]; simpl.
  - exists (x :: l). repeat split. intros Hl Hx.
    inversion Hl; subst. now constructor.
  - destruct (IH n) as (l' & E & Hlen & HP); [lia|].
    rewrite E. simpl. exists (y :: l'). repeat split.
    + simpl. now rewrite Hlen.
    + intros Hl Hx. inversion Hl; subst. constructor; auto.
Qed.

Lemma sum_positive (l : list Q) :
  l <> [] -> Forall (fun d => 0 < d) l -> 0 < sum l.
Proof.
  intros Hne Hl. induction Hl as [|x l Hx Hl IH]; [congruence|].
  simpl. destruct l as [|y l].
  - simpl. lra.
  - assert (0 < sum (y :: l)) by (apply IH; discriminate). lra.
Qed.

Lemma fdiv_ok (a b : Q) : ~ b == 0 -> fdiv a b = Ok (a / b).
Proof.
  intro H. unfold fdiv. apply Qeq_bool_false in H. now rewrite H.
Qed.

(** The estimate over five positive intervals: defined, equal to
    60 x 5 / sum, and positive. *)
Lemma rpm_now_positive (l : list Q) :
  List.length l = 5%nat -> Forall (fun d => 0 < d) l ->
  exists r, rpm_now l = Ok r /\ r == 60 * 5 / sum l /\ 0 < r.
Proof.
  intros Hlen Hpos.
  assert (Hs : 0 < sum l).
  { apply sum_positive; [|exact Hpos].
    intro E. rewrite E in Hlen. discriminate. }
  assert (Hne : ~ sum l == 0) by (intro E; rewrite E in Hs; lra).
  unfold rpm_now, len. rewrite Hlen, (fdiv_ok _ _ Hne).
  eexists. split; [reflexivity|]. split.
  - reflexivity.
  - apply Qlt_shift_div_l; [exact Hs|]. rewrite Qmult_0_l. reflexivity.
Qed.

Lemma rpm_now_history (st : state) :
  history_ok st ->
  exists r,
    rpm_now (delist st) = Ok r /\
    r == 60 * 5 / sum (delist st) /\ 0 < r.
Proof.
  intros (Hlen & Hpos & _). now apply rpm_now_positive.
Qed.

Lemma init_history (t0 t1 : Q) : history_ok (init t0 t1).
Proof.
  unfold history_ok. simpl. split; [reflexivity|]. split; [|lia].
  repeat constructor.
Qed.

Lemma guard_times (st : state) (i : tick_in) :
  guard st i = true ->
  timelast st + deltime st / 5 < t_guard1 i /\
  timelast st + (1 # 10) < t_guard2 i.
Proof.
  unfold guard. rewrite andb_true_iff, !Qlt_bool_iff. tauto.
Qed.

Lemma filter_frame (st : state) (i : tick_in) :
  timelast (filter st i) = timelast st /\
  deltime (filter st i) = deltime st /\
  delist (filter st i) = delist st /\
  delistind (filter st i) = delistind st /\
  control (filter st i) = control st.
Proof.
  unfold filter, control. destruct (mag i) as [[x y] z]. simpl. tauto.
Qed.

(** An accepted crossing records the two clock readings. *)
Lemma sense_accepted (st sa : state) (i : tick_in) :
  sense st i = Ok sa -> accepted st i = true ->
  timelast sa = t_last i /\ deltime sa = t_delta i - timelast st /\
  timelast st + deltime st / 5 < t_guard1 i /\
  timelast st + (1 # 10) < t_guard2 i.
Proof.
  unfold sense. intros H Ha. rewrite Ha in H.
  unfold accepted in Ha. apply andb_true_iff in Ha. destruct Ha as [_ Hg].
  apply guard_times in Hg.
  destruct (filter_frame st i) as (Etl & Edt & _).
  rewrite Etl, Edt in Hg.
  unfold crossing, bind in H. rewrite Etl in H.
  bind_cases H; injection H as <-; simpl; tauto.
Qed.

(** Under a clock that does not run backwards, sensing keeps the history
    well formed and raises nothing. *)
Lemma sense_history (st : state) (i : tick_in) :
  history_ok st -> clock_monotone i ->
  exists sa, sense st i = Ok sa /\ history_ok sa.
Proof.
  intros Hh Hc. unfold sense.
  destruct (filter_frame st i) as (Etl & Edt & Edl & Edi & _).
  assert (Hh1 : history_ok (filter st i))
    by (unfold history_ok; rewrite Edl, Edi; exact Hh).
  destruct (accepted st i) eqn:Ha; [|eexists; split; [reflexivity|exact Hh1]].
  unfold accepted in Ha. apply andb_true_iff in Ha. destruct Ha as [_ Hg].
  apply guard_times in Hg. rewrite Etl in Hg. destruct Hg as [_ Hg].
  destruct Hc as (_ & Hc & _).
  assert (Hd : 0 < t_delta i - timelast (filter st i)) by (rewrite Etl; lra).
  destruct Hh1 as (Hlen & Hpos & Hind).
  unfold crossing.
  set (ind := if (len (delist (filter st i)) <=? delistind (filter st i) + 1)%Z
              then 0%Z else (delistind (filter st i) + 1)%Z).
  assert (Hrange : (0 <= ind < 5)%Z).
  { unfold ind, len. rewrite Hlen.
    destruct (Z.leb_spec (Z.of_nat 5) (delistind (filter st i) + 1)); lia. }
  destruct (setitem_spec (fun d => 0 < d)
              (t_delta i - timelast (filter st i))
              (delist (filter st i)) (Z.to_nat ind))
    as (l' & El & Hlen' & Hpos'); [rewrite Hlen; lia|].
  rewrite El. simpl.
  assert (Hok : forall s, delist s = l' -> delistind s = ind -> history_ok s).
  { intros s E1 E2. unfold history_ok. rewrite E1, E2.
    split; [congruence|]. split; [auto|exact Hrange]. }
  destruct (Qeq_bool (servo_rpm (filter st i)) 0).
  - eexists. split; [reflexivity|]. now apply Hok.
  - destruct (rpm_now_positive l') as (r & Er & _);
      [congruence|auto|].
    rewrite Er. simpl. eexists. split; [reflexivity|]. now apply Hok.
Qed.

Lemma history_sensing (a b : state) :
  sensing a = sensing b -> history_ok b -> history_ok a.
Proof.
  unfold sensing, history_ok. intro H.
  injection H as _ _ _ _ _ -> ->. tauto.
Qed.

Lemma status_total (st : state) (i : tick_in) :
  history_ok st -> exists o, status st i = Ok o.
Proof.
  intro Hh. destruct (rpm_now_history st Hh) as (r & Er & _).
  destruct Hh as (Hlen & _ & _).
  unfold status, show_debug. destruct (mag i) as [[x y] z].
  rewrite Er. simpl. unfold len. rewrite Hlen.
  rewrite fdiv_ok by (intro E; discriminate E).
  simpl. eexists. reflexivity.
Qed.

(** The only exception the interpreter raises is the NameError of the stop
    range message. *)
Lemma dispatch_raises (float_of : string -> option Q) (st : state)
  (fullcomm : string) (i : tick_in) (e : exn) :
  dispatch float_of st fullcomm i = Raise e -> e = NameError.
Proof.
  unfold dispatch, do_stop, do_speed, do_rpm. intro H.
  destruct (mag_read i) as [[x y] z].
  bind_cases H; now injection H as <-.
Qed.

Lemma look_for_command_raises (float_of : string -> option Q) (st : state)
  (i : tick_in) (e : exn) :
  look_for_command float_of st i = Raise e -> e = NameError.
Proof.
  unfold look_for_command. intro H.
  destruct (serial i) as [|c r]; [discriminate|].
  destruct (drain (command st) (c :: r)) as [cmd o1].
  destruct (split_newline cmd) as [[fullcomm rest]|]; [|discriminate].
  destruct (dispatch float_of (set_command st rest) fullcomm i)
    as [[s2 o2]|e'] eqn:Ed; simpl in H; [discriminate|].
  injection H as <-. eapply dispatch_raises. exact Ed.
Qed.

Lemma tick_history (float_of : string -> option Q) (st : state)
  (i : tick_in) :
  history_ok st -> clock_monotone i ->
  match tick float_of st i with
  | Ok (st', _) => history_ok st'
  | Raise e => e = NameError
  end.
Proof.
  intros Hh Hc. unfold tick.
  destruct (sense_history st i Hh Hc) as (sa & Es & Hsa). rewrite Es. simpl.
  destruct (check_stop sa (t_mon i)) as [st2 o2] eqn:Estop.
  apply check_stop_frame in Estop. destruct Estop as (Hs2 & _).
  assert (H2 : history_ok st2) by (eapply history_sensing; eauto).
  destruct (status_total st2 i H2) as (o3 & Eo3). rewrite Eo3. simpl.
  destruct (look_for_command float_of st2 i) as [[st3 o4]|e] eqn:El; simpl.
  - apply look_for_command_frame in El. destruct El as (Hs3 & _).
    eapply history_sensing; eauto.
  - eapply look_for_command_raises. exact El.
Qed.

Lemma run_history (float_of : string -> option Q) (ins : list tick_in) :
  forall st : state,
    history_ok st -> Forall clock_monotone ins ->
    match run float_of st ins with
    | Ok (st', _) => history_ok st'
    | Raise e => e = NameError
    end.
Proof.
  induction ins as [|i r IH]; intros st Hh Hc; simpl; [exact Hh|].
  inversion Hc as [|? ? Hi Hr]; subst.
  pose proof (tick_history float_of st i Hh Hi) as Ht.
  destruct (tick float_of st i) as [[s1 o1]|e]; simpl; [|exact Ht].
  pose proof (IH s1 Ht Hr) as Hrun.
  destruct (run float_of s1 r) as [[s2 o2]|e]; simpl; exact Hrun.
Qed.

(** C6. In every state an execution reaches, the estimated rotation rate
    is defined and equals 60 x 5 divided by the sum of the five stored
    intervals, and it is strictly positive; no execution divides by zero.
    The clock is assumed not to run backwards within a pass. *)
Theorem estimate_identity (float_of : string -> option Q) (t0 t1 : Q)
  (ins : list tick_in) :
  Forall clock_monotone ins ->
  run float_of (init t0 t1) ins <> Raise ZeroDivisionError /\
  forall st o,
    run float_of (init t0 t1) ins = Ok (st, o) ->
    List.length (delist st) = 5%nat /\
    Forall (fun d => 0 < d) (delist st) /\
    exists r,
      rpm_now (delist st) = Ok r /\
      r == 60 * 5 / sum (delist st) /\ 0 < r.
Proof.
  intro Hc.
  pose proof (run_history float_of ins (init t0 t1) (init_history t0 t1) Hc)
    as H.
  split.
  - intro E. rewrite E in H. discriminate H.
  - intros st o E. rewrite E in H.
    split; [apply H|]. split; [apply H|]. now apply rpm_now_history.
Qed.

Lemma pass_at_monotone (t y : Q) (chars : string) :
  clock_monotone (pass_at t y chars).
Proof.
  unfold clock_monotone. simpl. repeat split; apply Qle_refl.
Qed.

Lemma two_crossings_monotone : Forall clock_monotone two_crossings.
Proof.
  repeat constructor; apply pass_at_monotone.
Qed.

Lemma estimate_identity_witness :
  run decimal (init 0 0) two_crossings <> Raise ZeroDivisionError /\
  forall st o,
    run decimal (init 0 0) two_crossings = Ok (st, o) ->
    List.length (delist st) = 5%nat /\
    Forall (fun d => 0 < d) (delist st) /\
    exists r,
      rpm_now (delist st) = Ok r /\
      r == 60 * 5 / sum (delist st) /\ 0 < r.
Proof.
  apply (estimate_identity decimal 0 0 two_crossings).
  exact two_crossings_monotone.
Defined.

Example two_crossings_history :
  exists st o,
    run decimal (init 0 0) two_crossings = Ok (st, o) /\
    delist st = [1; 1 - 0; 3 - 1; 1; 1] /\ delistind st = 2%Z /\
    crossings decimal (init 0 0) two_crossings = [(1, 1 - 0); (3, 3 - 1)].
Proof.
  eexists. eexists. split; [vm_compute; reflexivity|].
  repeat split; vm_compute; reflexivity.
Qed.

(** ** Debounce *)

Lemma debounced_crossings (float_of : string -> option Q)
  (ins : list tick_in) :
  forall st : state,
    Forall clock_monotone ins ->
    debounced (timelast st) (deltime st) (crossings float_of st ins).
Proof.
  induction ins as [|i r IH]; intros st Hc; simpl; [exact I|].
  inversion Hc as [|? ? Hi Hr]; subst.
  destruct (sense st i) as [sa|e] eqn:Es; [|exact I].
  assert (Hrest :
    debounced (timelast sa) (deltime sa)
      match tick float_of st i with
      | Ok (st1, _) => crossings float_of st1 r
      | Raise _ => []
      end).
  { destruct (tick float_of st i) as [[st1 o1]|e] eqn:Et; [|exact I].
    apply tick_sensing in Et. destruct Et as (sa' & Es' & Hs).
    rewrite Es in Es'. injection Es' as <-.
    unfold sensing in Hs. injection Hs as _ _ _ Htl Hdt _ _.
    rewrite <- Htl, <- Hdt. now apply IH. }
  destruct (accepted st i) eqn:Ha; simpl.
  - destruct (sense_accepted _ _ _ Es Ha) as (Etl & _ & Hg1 & Hg2).
    destruct Hi as (H12 & H2d & Hdl & _).
    rewrite Etl. repeat split; [lra|lra|].
    rewrite <- Etl. exact Hrest.
  - destruct (sense_rejected _ _ _ Es Ha) as (Etl & Edt & _).
    rewrite <- Etl, <- Edt. exact Hrest.
Qed.

Lemma debounced_pairs (l : list (Q * Q)) :
  forall t d : Q,
    debounced t d l ->
    Forall (fun e => t + (1 # 10) < fst e) l /\
    ForallOrdPairs (fun a b => fst a + (1 # 10) < fst b) l.
Proof.
  induction l as [|[t' d'] r IH]; intros t d H; simpl in H.
  - split; constructor.
  - destruct H as (H1 & _ & Hr). destruct (IH _ _ Hr) as (Hall & Hpairs).
    split.
    + constructor; [exact H1|].
      eapply Forall_impl; [|exact Hall]. simpl. intros e He. lra.
    + constructor; assumption.
Qed.

(** C5. In every execution under a clock that does not run backwards,
    each accepted crossing comes more than 0.1 s after the previous one (so
    any two accepted crossings are more than 0.1 s apart) and more than a
    fifth of the last measured interval after it. *)
Theorem accepted_crossings_debounced (float_of : string -> option Q)
  (st : state) (ins : list tick_in) :
  Forall clock_monotone ins ->
  debounced (timelast st) (deltime st) (crossings float_of st ins) /\
  ForallOrdPairs (fun a b => fst a + (1 # 10) < fst b)
                 (crossings float_of st ins).
Proof.
  intro Hc.
  pose proof (debounced_crossings float_of ins st Hc) as H.
  split; [exact H|]. eapply debounced_pairs. exact H.
Qed.

Lemma accepted_crossings_debounced_witness :
  debounced (timelast (init 0 0)) (deltime (init 0 0))
            (crossings decimal (init 0 0) two_crossings) /\
  ForallOrdPairs (fun a b => fst a + (1 # 10) < fst b)
                 (crossings decimal (init 0 0) two_crossings).
Proof.
  apply (accepted_crossings_debounced decimal (init 0 0) two_crossings).
  exact two_crossings_monotone.
Defined.

(** ** Stop scheduler *)

Lemma filter_none (f : msg -> bool) (o : list msg) :
  forallb (fun m => negb (f m)) o = true -> List.filter f o = [].
Proof.
  induction o as [|m o IH]; simpl; [reflexivity|].
  destruct (f m); simpl; [discriminate|exact IH].
Qed.

Lemma status_quiet (st : state) (i : tick_in) (o : list msg) :
  status st i = Ok o -> List.filter is_stopping_now o = [].
Proof.
  unfold status, bind, show_debug. destruct (mag i) as [[x y] z]. intro H.
  destruct (rpm_now (delist st)) as [r|e]; [|discriminate].
  destruct (fdiv _ _) as [mean|e]; [|discriminate].
  injection H as <-. simpl.
  destruct (0 <? String.length (command st))%nat; reflexivity.
Qed.

Lemma stop_with_minutes (float_of : string -> option Q) (st : state)
  (fullcomm : string) (i : tick_in) (v : Q) :
  verb_of fullcomm = VStop ->
  (5 < String.length (strip fullcomm))%nat ->
  float_of (strip (drop 4 (strip fullcomm))) = Some v ->
  0 <= v -> v <= 43200 ->
  dispatch float_of st fullcomm i
  = Ok (set_stoptime (set_new_stop st v) (t_cmd i + 60 * v), [SetStop v]).
Proof.
  intros Hv Hlen Hp Hlo Hhi. unfold dispatch. rewrite Hv. unfold do_stop.
  apply Nat.ltb_lt in Hlen. rewrite Hlen, Hp.
  assert (E : Qlt_bool v 0 || Qlt_bool 43200 v = false).
  { apply orb_false_iff. split; now apply Qlt_bool_false. }
  now rewrite E.
Qed.

Lemma check_stop_fires (st : state) (t : Q) :
  stoptime st < t -> t - 1 < stoptime st ->
  ~ servo_speed st == servo_zero_speed ->
  check_stop st t
  = (set_throttle (set_servo_rpm (set_servo_speed st servo_zero_speed) 0)
                  servo_zero_speed,
     [StoppingNow]).
Proof.
  intros H1 H2 H3. unfold check_stop, stop_due.
  apply Qlt_bool_iff in H1, H2. apply Qeq_bool_false in H3.
  now rewrite H1, H2, H3.
Qed.

Lemma check_stop_neutral (st : state) (t : Q) :
  servo_speed st == servo_zero_speed -> check_stop st t = (st, []).
Proof.
  intro H. unfold check_stop, stop_due. apply Qeq_bool_iff in H.
  rewrite H. now rewrite andb_false_r.
Qed.

(** The window is open on both sides: a pass exactly one second after the
    deadline, or later, does nothing. *)
Lemma check_stop_late (st : state) (t : Q) :
  stoptime st + 1 <= t -> check_stop st t = (st, []).
Proof.
  intro H. unfold check_stop, stop_due.
  assert (E : Qlt_bool (t - 1) (stoptime st) = false)
    by (apply Qlt_bool_false; lra).
  rewrite E. now rewrite andb_false_r.
Qed.

(** A pass that starts with the output neutral and no target rate does not
    announce a stop, and without input it ends in the same condition. *)
Lemma tick_after_stop (float_of : string -> option Q) (st st' : state)
  (i : tick_in) (o : list msg) :
  servo_speed st = servo_zero_speed -> servo_rpm st = 0 ->
  tick float_of st i = Ok (st', o) ->
  List.filter is_stopping_now o = [] /\
  (serial i = [] ->
   servo_speed st' = servo_zero_speed /\ servo_rpm st' = 0).
Proof.
  intros Hsp Hrpm. unfold tick.
  destruct (sense st i) as [sa|e] eqn:Es; simpl; [|discriminate].
  apply sense_frame in Es. destruct Es as (_ & _ & Hr & Hs).
  destruct Hs as [Hs _]; [now rewrite Hrpm|].
  rewrite check_stop_neutral by (rewrite Hs, Hsp; reflexivity).
  destruct (status sa i) as [o3|e] eqn:Estat; simpl; [|discriminate].
  apply status_quiet in Estat.
  destruct (look_for_command float_of sa i) as [[st3 o4]|e] eqn:El;
    simpl; [|discriminate].
  intro H. injection H as <- <-. split.
  - apply look_for_command_frame in El. destruct El as (_ & Ho4).
    apply filter_none in Ho4.
    now rewrite filter_app, Estat, Ho4.
  - intro Hser. rewrite (look_without_bytes _ _ _ Hser) in El.
    injection El as <- _. split; congruence.
Qed.

(** A pass without input whose clock reading falls strictly inside the
    second after the deadline, with the output not neutral after sensing,
    stops the servo and announces it once. *)
Lemma tick_fires (float_of : string -> option Q) (st sa st' : state)
  (i : tick_in) (o : list msg) :
  stoptime st < t_mon i -> t_mon i - 1 < stoptime st ->
  sense st i = Ok sa -> ~ servo_speed sa == servo_zero_speed ->
  serial i = [] ->
  tick float_of st i = Ok (st', o) ->
  servo_speed st' = servo_zero_speed /\ servo_rpm st' = 0 /\
  throttle st' = Some servo_zero_speed /\
  List.filter is_stopping_now o = [StoppingNow].
Proof.
  intros H1 H2 Es Hsp Hser. unfold tick. rewrite Es. simpl.
  apply sense_frame in Es. destruct Es as (_ & Est & _).
  rewrite check_stop_fires by (rewrite ?Est; assumption).
  destruct (status _ i) as [o3|e] eqn:Estat; simpl; [|discriminate].
  apply status_quiet in Estat.
  rewrite (look_without_bytes _ _ _ Hser). simpl.
  intro H. injection H as <- <-. repeat split.
  simpl. now rewrite filter_app, Estat.
Qed.

(** C4 as stated fails. With the output at 0.5, [stop 1] read at 100 s sets
    the deadline to 160 s; a pass at 161 s, 61 seconds later, does not stop
    the servo (the deadline is not later than the clock reading minus one
    second), and neither does the pass after it.  With the output neutral
    and the target rate 30, a pass at 160.5 s inside the window does not act
    either: no notification, and the target rate stays 30. *)
Lemma deadline_counterexample :
  (exists s1 o1 s2 o2 s3 o3,
     run decimal (init 0 0)
         [pass_at 1 0 (line "speed 0.5"); pass_at 100 0 (line "stop 1")]
     = Ok (s1, o1) /\
     stoptime s1 == 100 + 60 /\ servo_speed s1 == 1 # 2 /\
     tick decimal s1 (pass_at (100 + 61) 0 EmptyString) = Ok (s2, o2) /\
     List.filter is_stopping_now o2 = [] /\
     servo_speed s2 == 1 # 2 /\ ~ servo_speed s2 == servo_zero_speed /\
     tick decimal s2 (pass_at (100 + 61 + (1 # 10)) 0 EmptyString)
     = Ok (s3, o3) /\
     List.filter is_stopping_now o3 = [] /\ servo_speed s3 == 1 # 2) /\
  (exists s1 o1 s2 o2,
     run decimal (init 0 0)
         [pass_at 1 0 (line "rpm 30"); pass_at 2 0 (line "speed 0.017");
          pass_at 100 0 (line "stop 1")]
     = Ok (s1, o1) /\
     stoptime s1 == 100 + 60 /\ servo_speed s1 == servo_zero_speed /\
     tick decimal s1 (pass_at (100 + 60 + (1 # 2)) 0 EmptyString)
     = Ok (s2, o2) /\
     List.filter is_stopping_now o2 = [] /\
     servo_rpm s2 == 30 /\ ~ servo_rpm s2 == 0).
Proof.
  split.
  - do 6 eexists.
    split; [vm_compute; reflexivity|].
    split; [vm_compute; reflexivity|]. split; [vm_compute; reflexivity|].
    split; [vm_compute; reflexivity|].
    split; [reflexivity|]. split; [vm_compute; reflexivity|].
    split; [vm_compute; discriminate|].
    split; [vm_compute; reflexivity|].
    split; [reflexivity|vm_compute; reflexivity].
  - do 4 eexists.
    split; [vm_compute; reflexivity|].
    split; [vm_compute; reflexivity|]. split; [vm_compute; reflexivity|].
    split; [vm_compute; reflexivity|].
    split; [reflexivity|]. split; [vm_compute; reflexivity|].
    vm_compute; discriminate.
Qed.

(** C4, amended. [stop 1] sets the deadline to the clock reading plus 60 s.
    A pass whose clock reading lies strictly between 60 s and 61 s after
    that reading, in which the output is not neutral and no input arrives,
    sets the output to neutral and the target rate to 0, writes neutral to
    the servo and prints the notification once; the pass that follows does
    not print it again. *)
Theorem deadline_fires_once (float_of : string -> option Q) (s0 : state)
  (i0 : tick_in) :
  float_of "1"%string = Some 1 ->
  dispatch float_of s0 "stop 1" i0
  = Ok (set_stoptime (set_new_stop s0 1) (t_cmd i0 + 60 * 1), [SetStop 1]) /\
  forall (st sa st1 : state) (i : tick_in) (o1 : list msg),
    stoptime st == t_cmd i0 + 60 * 1 ->
    t_cmd i0 + 60 < t_mon i -> t_mon i < t_cmd i0 + 61 ->
    sense st i = Ok sa -> ~ servo_speed sa == servo_zero_speed ->
    serial i = [] ->
    tick float_of st i = Ok (st1, o1) ->
    (servo_speed st1 = servo_zero_speed /\ servo_rpm st1 = 0 /\
     throttle st1 = Some servo_zero_speed /\
     List.filter is_stopping_now o1 = [StoppingNow]) /\
    forall (j : tick_in) (st2 : state) (o2 : list msg),
      tick float_of st1 j = Ok (st2, o2) ->
      List.filter is_stopping_now o2 = [].
Proof.
  intro Hp. split.
  - apply stop_with_minutes; try reflexivity; try exact Hp;
      unfold Qle; simpl; lia.
  - intros st sa st1 i o1 Hd Hlo Hhi Es Hsp Hser Ht.
    assert (Hf : servo_speed st1 = servo_zero_speed /\ servo_rpm st1 = 0 /\
                 throttle st1 = Some servo_zero_speed /\
                 List.filter is_stopping_now o1 = [StoppingNow]).
    { apply (tick_fires float_of st sa st1 i o1); trivial; rewrite Hd; lra. }
    split; [exact Hf|].
    destruct Hf as (H1 & H2 & _).
    intros j st2 o2 Hj.
    now destruct (tick_after_stop float_of st1 st2 j o2 H1 H2 Hj).
Qed.

Lemma deadline_fires_once_witness :
  let s0 := set_throttle (set_servo_speed (init 0 0) (1 # 2)) (1 # 2) in
  let i0 := pass_at 100 0 (line "stop 1") in
  let st := set_stoptime (set_new_stop s0 1) (t_cmd i0 + 60 * 1) in
  let i := pass_at (1605 # 10) 0 EmptyString in
  exists st1 o1,
    tick decimal st i = Ok (st1, o1) /\
    (servo_speed st1 = servo_zero_speed /\ servo_rpm st1 = 0 /\
     throttle st1 = Some servo_zero_speed /\
     List.filter is_stopping_now o1 = [StoppingNow]) /\
    forall (j : tick_in) (st2 : state) (o2 : list msg),
      tick decimal st1 j = Ok (st2, o2) ->
      List.filter is_stopping_now o2 = [].
Proof.
  intros s0 i0 st i.
  destruct (tick decimal st i) as [[st1 o1]|e] eqn:Et;
    [|vm_compute in Et; discriminate Et].
  exists st1, o1. split; [reflexivity|].
  apply (proj2 (deadline_fires_once decimal s0 i0 eq_refl)
           st (filter st i) st1 i o1).
  - reflexivity.
  - vm_compute. reflexivity.
  - vm_compute. reflexivity.
  - vm_compute. reflexivity.
  - vm_compute. discriminate.
  - reflexivity.
  - exact Et.
Defined.

(** The firing pass must not read a command that restarts the servo: when
    [speed 0.5] arrives in the pass that stops the servo, the next pass is
    still inside the window and stops it a second time. *)
Example retrigger_after_command :
  exists s1 o1 s2 o2 s3 o3,
    run decimal (init 0 0)
        [pass_at 1 0 (line "speed 0.5"); pass_at 100 0 (line "stop 1")]
    = Ok (s1, o1) /\
    tick decimal s1 (pass_at (1605 # 10) 0 (line "speed 0.5")) = Ok (s2, o2) /\
    List.filter is_stopping_now o2 = [StoppingNow] /\
    tick decimal s2 (pass_at (1606 # 10) 0 EmptyString) = Ok (s3, o3) /\
    List.filter is_stopping_now o3 = [StoppingNow].
Proof.
  do 6 eexists.
  split; [vm_compute; reflexivity|].
  split; [vm_compute; reflexivity|]. split; [reflexivity|].
  split; [vm_compute; reflexivity|]. reflexivity.
Qed.

(** * Further properties of the loop *)

(** ** Line buffer *)

Lemma take_app_length (s t : string) :
  take (String.length s) (s ++ t)%string = s.
Proof.
  induction s as [|c s IH]; simpl.
  - destruct t; reflexivity.
  - now rewrite IH.
Qed.

Lemma length_app (s t : string) :
  String.length (s ++ t)%string = (String.length s + String.length t)%nat.
Proof.
  induction s as [|c s IH]; simpl; [reflexivity|now rewrite IH].
Qed.

Lemma app_assoc_string (a b c : string) :
  ((a ++ b) ++ c = a ++ (b ++ c))%string.
Proof.
  induction a as [|x a IH]; simpl; [reflexivity|now rewrite IH].
Qed.

Lemma read_char_plain (cmd : string) (c : ascii) :
  is_erase c = false -> read_char cmd c = (cmd ++ String c EmptyString)%string.
Proof.
  unfold is_erase, read_char. intro H. now rewrite H.
Qed.

(** Lines 146-148. An erase code removes itself and the character typed
    before it; on an empty buffer it leaves the buffer empty. *)
Theorem erase_removes_last (cmd : string) (c e : ascii) :
  is_erase e = true ->
  read_char (cmd ++ String c EmptyString) e = cmd /\
  read_char EmptyString e = EmptyString.
Proof.
  intro He. unfold is_erase in He. unfold read_char. rewrite He. split.
  - rewrite app_assoc_string. simpl.
    assert (Hlen : String.length (cmd ++ String c (String e EmptyString))
                   = S (S (String.length cmd)))
      by (rewrite length_app; simpl; lia).
    unfold drop_last2. rewrite Hlen. simpl. rewrite Nat.sub_0_r.
    apply take_app_length.
  - reflexivity.
Qed.

Lemma erase_removes_last_witness :
  read_char "rpm 3" (ascii_of_nat 127) = "rpm "%string /\
  read_char EmptyString (ascii_of_nat 127) = EmptyString.
Proof.
  apply (erase_removes_last "rpm " "3"%char (ascii_of_nat 127)).
  reflexivity.
Defined.

Lemma drain_plain (cs : list ascii) :
  forall cmd : string,
    forallb (fun c => negb (is_erase c)) cs = true ->
    drain cmd cs = ((cmd ++ string_of_list_ascii cs)%string, map NewChar cs).
Proof.
  induction cs as [|c r IH]; intros cmd H; simpl.
  - f_equal. induction cmd as [|x cmd IHc]; simpl; [reflexivity|].
    now rewrite <- IHc.
  - simpl in H. apply andb_true_iff in H. destruct H as [Hc Hr].
    apply negb_true_iff in Hc. rewrite (read_char_plain _ _ Hc).
    rewrite (IH _ Hr). unfold show_debug. simpl.
    now rewrite app_assoc_string.
Qed.

(** Lines 142-148. Characters other than the erase codes are appended to
    the buffer in the order read, each echoed by one debug line. *)
Theorem drain_appends (cs : list ascii) (cmd : string) :
  forallb (fun c => negb (is_erase c)) cs = true ->
  drain cmd cs = ((cmd ++ string_of_list_ascii cs)%string, map NewChar cs).
Proof.
  apply drain_plain.
Qed.

Lemma drain_appends_witness :
  drain "rp" (list_ascii_of_string "m 30")
  = ("rpm 30"%string, map NewChar (list_ascii_of_string "m 30")).
Proof.
  apply (drain_appends (list_ascii_of_string "m 30") "rp"). reflexivity.
Defined.

Lemma split_newline_app (a b : string) :
  split_newline a = None ->
  split_newline (a ++ String newline b) = Some (a, b).
Proof.
  induction a as [|c a IH]; simpl; intro H.
  - reflexivity.
  - destruct (Ascii.eqb c newline); [discriminate|].
    destruct (split_newline a) as [[x y]|]; [discriminate|].
    now rewrite IH.
Qed.

(** Lines 150-151. The buffer is split at its first newline: the line
    holds no newline, and line, newline and remainder make up the buffer
    again. *)
Theorem split_newline_first (s a b : string) :
  split_newline s = Some (a, b) <->
  s = (a ++ String newline b)%string /\ split_newline a = None.
Proof.
  split.
  - revert a b. induction s as [|c s IH]; simpl; intros a b H; [discriminate|].
    destruct (Ascii.eqb c newline) eqn:Ec.
    + injection H as <- <-. apply Ascii.eqb_eq in Ec. subst c.
      split; reflexivity.
    + destruct (split_newline s) as [[x y]|]; [|discriminate].
      injection H as <- <-. destruct (IH x y eq_refl) as [-> Hx].
      split; [reflexivity|]. simpl. now rewrite Ec, Hx.
  - intros [-> H]. now apply split_newline_app.
Qed.

(** A buffer without a newline is not split, and only such a buffer. *)
Lemma split_newline_none (s : string) :
  split_newline s = None <-> ~ In newline (list_ascii_of_string s).
Proof.
  induction s as [|c s IH]; simpl.
  - tauto.
  - destruct (Ascii.eqb c newline) eqn:Ec.
    + apply Ascii.eqb_eq in Ec. split; [discriminate|]. intro H.
      exfalso. apply H. now left.
    + apply Ascii.eqb_neq in Ec.
      destruct (split_newline s) as [[x y]|].
      * split; [discriminate|]. intro H. exfalso.
        assert (Hn : ~ In newline (list_ascii_of_string s))
          by (intro Hin; apply H; now right).
        apply IH in Hn. discriminate.
      * split; [|reflexivity]. intros _ [E|Hin]; [congruence|].
        now apply (proj1 IH).
Qed.

(** ** Verb selection *)

Lemma prefix_length (a b : string) :
  prefix a b = true -> (String.length a <= String.length b)%nat.
Proof.
  revert b. induction a as [|x a IH]; intros b H; simpl; [lia|].
  destruct b as [|y b]; simpl in H; [discriminate|].
  destruct (ascii_dec x y); [|discriminate].
  apply IH in H. simpl. lia.
Qed.

Lemma prefix_same_length (a b : string) :
  String.length b = String.length a -> prefix a b = true -> b = a.
Proof.
  revert b. induction a as [|x a IH]; intros b Hlen H.
  - destruct b; [reflexivity|discriminate].
  - destruct b as [|y b]; [discriminate|]. simpl in H.
    destruct (ascii_dec x y) as [->|]; [|discriminate].
    f_equal. apply IH; [simpl in Hlen; lia|exact H].
Qed.

Lemma prefix_refl (a : string) : prefix a a = true.
Proof.
  induction a as [|x a IH]; simpl; [reflexivity|].
  destruct (ascii_dec x x); [exact IH|congruence].
Qed.

Lemma str_in_cons (needle : string) (y : ascii) (hay : string) :
  str_in needle (String y hay)
  = prefix needle (String y hay) || str_in needle hay.
Proof. reflexivity. Qed.

Lemma str_in_shorter (needle hay : string) :
  (String.length hay < String.length needle)%nat ->
  str_in needle hay = false.
Proof.
  induction hay as [|y hay IH]; intro H.
  - destruct needle; [simpl in H; lia|reflexivity].
  - rewrite str_in_cons, IH by (simpl in H; lia).
    destruct (prefix needle (String y hay)) eqn:E; [|reflexivity].
    apply prefix_length in E. lia.
Qed.

(** [needle in hay] for a [hay] no longer than [needle] is equality. *)
Lemma str_in_short (needle hay : string) :
  (String.length hay <= String.length needle)%nat ->
  str_in needle hay = true <-> hay = needle.
Proof.
  intro Hlen. split.
  - intro H. destruct hay as [|y hay].
    + simpl in H. destruct needle; [reflexivity|discriminate].
    + rewrite str_in_cons in H.
      rewrite str_in_shorter in H by (simpl in Hlen; lia).
      rewrite orb_false_r in H.
      apply prefix_same_length; [|exact H].
      apply prefix_length in H. lia.
  - intros ->. destruct needle as [|a needle]; [reflexivity|].
    now rewrite str_in_cons, prefix_refl.
Qed.

Lemma take_length (n : nat) (s : string) :
  (String.length (take n s) <= n)%nat.
Proof.
  revert s. induction n as [|n IH]; intro s; simpl; [lia|].
  destruct s as [|c s]; simpl; [lia|]. specialize (IH s). lia.
Qed.

Lemma take_take (n m : nat) (s : string) :
  (n <= m)%nat -> take n (take m s) = take n s.
Proof.
  revert m s. induction n as [|n IH]; intros m s H; simpl; [reflexivity|].
  destruct m as [|m]; [lia|]. destruct s as [|c s]; simpl; [reflexivity|].
  f_equal. apply IH. lia.
Qed.

Lemma verb_test (verb s : string) :
  str_in verb (take (String.length verb) s) = true
  <-> take (String.length verb) s = verb.
Proof.
  apply str_in_short. apply take_length.
Qed.

Lemma verb_of_prefix_five (fullcomm : string) :
  let s := strip fullcomm in
  (verb_of fullcomm = VHelp <-> take 4 s = "help"%string) /\
  (verb_of fullcomm = VStop <-> take 4 s = "stop"%string) /\
  (verb_of fullcomm = VSpeed <-> take 5 s = "speed"%string) /\
  (verb_of fullcomm = VRpm <-> take 3 s = "rpm"%string) /\
  (verb_of fullcomm = VRead <-> take 4 s = "read"%string).
Proof.
  intro s. unfold verb_of. fold s.
  pose proof (verb_test "help" s) as Hh.
  pose proof (verb_test "stop" s) as Hs.
  pose proof (verb_test "speed" s) as Hp.
  pose proof (verb_test "rpm" s) as Hr.
  pose proof (verb_test "read" s) as Hd.
  simpl String.length in *.
  assert (H43 : take 3 (take 4 s) = take 3 s) by (apply take_take; lia).
  assert (H54 : take 4 (take 5 s) = take 4 s) by (apply take_take; lia).
  assert (H53 : take 3 (take 5 s) = take 3 s) by (apply take_take; lia).
  destruct (str_in "help" (take 4 s)) eqn:Eh;
    [assert (E4 : take 4 s = "help"%string) by now apply Hh|].
  { rewrite E4 in *. rewrite <- H54, <- H43.
    repeat split; try tauto; try discriminate;
      intro E; try rewrite E in H54; try rewrite E in H43;
      try rewrite E in H53; simpl in *; congruence. }
  assert (Nh : take 4 s <> "help"%string)
    by (intro E; apply Hh in E; congruence).
  destruct (str_in "stop" (take 4 s)) eqn:Es;
    [assert (E4 : take 4 s = "stop"%string) by now apply Hs|].
  { rewrite E4 in *.
    repeat split; try tauto; try discriminate;
      intro E; try rewrite E in H54; try rewrite E in H43;
      try rewrite E in H53; simpl in *; congruence. }
  assert (Ns : take 4 s <> "stop"%string)
    by (intro E; apply Hs in E; congruence).
  destruct (str_in "speed" (take 5 s)) eqn:Ep;
    [assert (E5 : take 5 s = "speed"%string) by now apply Hp|].
  { rewrite E5 in *.
    repeat split; try tauto; try discriminate;
      intro E; try rewrite E in H54; try rewrite E in H43;
      try rewrite E in H53; simpl in *; congruence. }
  assert (Np : take 5 s <> "speed"%string)
    by (intro E; apply Hp in E; congruence).
  destruct (str_in "rpm" (take 3 s)) eqn:Er;
    [assert (E3 : take 3 s = "rpm"%string) by now apply Hr|].
  { rewrite E3 in *.
    repeat split; try tauto; try discriminate;
      intro E; try rewrite E in H54; try rewrite E in H43;
      try rewrite E in H53; simpl in *; congruence. }
  assert (Nr : take 3 s <> "rpm"%string)
    by (intro E; apply Hr in E; congruence).
  destruct (str_in "read" (take 4 s)) eqn:Ed;
    [assert (E4 : take 4 s = "read"%string) by now apply Hd|].
  { repeat split; try tauto; try discriminate; intro; congruence. }
  assert (Nd : take 4 s <> "read"%string)
    by (intro E; apply Hd in E; congruence).
  repeat split; try tauto; try discriminate; intro; congruence.
Qed.

(** Lines 153-222. A verb is selected exactly when the stripped line starts
    with it; the five verbs exclude one another, so the order of the tests
    decides nothing, and a line starting with none of them is invalid. *)
Theorem verb_of_prefix (fullcomm : string) :
  let s := strip fullcomm in
  (verb_of fullcomm = VHelp <-> take 4 s = "help"%string) /\
  (verb_of fullcomm = VStop <-> take 4 s = "stop"%string) /\
  (verb_of fullcomm = VSpeed <-> take 5 s = "speed"%string) /\
  (verb_of fullcomm = VRpm <-> take 3 s = "rpm"%string) /\
  (verb_of fullcomm = VRead <-> take 4 s = "read"%string) /\
  (verb_of fullcomm = VInvalid <->
   take 4 s <> "help"%string /\ take 4 s <> "stop"%string /\
   take 5 s <> "speed"%string /\ take 3 s <> "rpm"%string /\
   take 4 s <> "read"%string).
Proof.
  intro s.
  destruct (verb_of_prefix_five fullcomm) as (Hh & Hs & Hp & Hr & Hd).
  fold s in Hh, Hs, Hp, Hr, Hd.
  do 5 (split; [assumption|]).
  split.
  - intro E. rewrite E in Hh, Hs, Hp, Hr, Hd.
    repeat split; intro F;
      [apply Hh in F|apply Hs in F|apply Hp in F|apply Hr in F|apply Hd in F];
      discriminate F.
  - intros (Nh & Ns & Np & Nr & Nd).
    destruct (verb_of fullcomm); try reflexivity; exfalso; tauto.
Qed.

(** ** Surrounding whitespace *)

Lemma rstrip_idempotent (s : string) : rstrip (rstrip s) = rstrip s.
Proof.
  induction s as [|c s IH]; [reflexivity|].
  simpl. destruct (rstrip s) as [|d r] eqn:E.
  - destruct (isspace c) eqn:Ec; [reflexivity|]. simpl. now rewrite Ec.
  - change (rstrip (String c (String d r)))
      with (match rstrip (String d r) with
            | EmptyString => if isspace c then EmptyString
                             else String c EmptyString
            | r' => String c r'
            end).
    now rewrite IH.
Qed.

Lemma lstrip_head (s : string) :
  match lstrip s with
  | EmptyString => True
  | String c _ => isspace c = false
  end.
Proof.
  induction s as [|c s IH]; simpl; [exact I|].
  destruct (isspace c) eqn:E; [exact IH|exact E].
Qed.

Lemma rstrip_keeps_head (c : ascii) (s : string) :
  isspace c = false -> exists r, rstrip (String c s) = String c r.
Proof.
  intro H. simpl. destruct (rstrip s).
  - rewrite H. now exists EmptyString.
  - eexists. reflexivity.
Qed.

Lemma lstrip_strip (s : string) : lstrip (strip s) = strip s.
Proof.
  unfold strip. pose proof (lstrip_head s) as H.
  destruct (lstrip s) as [|c r]; [reflexivity|].
  destruct (rstrip_keeps_head c r H) as (r' & E). rewrite E.
  simpl. now rewrite H.
Qed.

Lemma strip_idempotent (s : string) : strip (strip s) = strip s.
Proof.
  unfold strip at 1. rewrite lstrip_strip. unfold strip.
  apply rstrip_idempotent.
Qed.

(** Lines 153-213. Whitespace before and after a line changes nothing of
    what the line does to the state: the stripped line ends in the same
    state, or raises the same exception, as the line itself. *)
Theorem dispatch_ignores_padding (float_of : string -> option Q)
  (st : state) (fullcomm : string) (i : tick_in) :
  final_state (dispatch float_of st (strip fullcomm) i)
  = final_state (dispatch float_of st fullcomm i).
Proof.
  unfold dispatch, verb_of, do_stop, do_speed, do_rpm.
  rewrite strip_idempotent.
  destruct (mag_read i) as [[x y] z].
  repeat match goal with
    | |- context [match ?x with _ => _ end] => destruct x; simpl
    | |- context [if ?b then _ else _] => destruct b; simpl
    end; reflexivity.
Qed.

(** ** Commands *)

Lemma string_of_list_app (a b : list ascii) :
  string_of_list_ascii (a ++ b)
  = (string_of_list_ascii a ++ string_of_list_ascii b)%string.
Proof.
  induction a as [|x a IH]; simpl; [reflexivity|now rewrite IH].
Qed.

Lemma list_of_string_app (a b : string) :
  list_ascii_of_string (a ++ b)
  = (list_ascii_of_string a ++ list_ascii_of_string b)%list.
Proof.
  induction a as [|x a IH]; simpl; [reflexivity|now rewrite IH].
Qed.

Lemma look_with_bytes (float_of : string -> option Q) (st : state)
  (i : tick_in) :
  serial i <> [] ->
  look_for_command float_of st i
  = let '(cmd, o) := drain (command st) (serial i) in
    match split_newline cmd with
    | None => Ok (set_command st cmd, o)
    | Some (fullcomm, rest) =>
        do (st', o') <- dispatch float_of (set_command st rest) fullcomm i ;;
        Ok (st', o ++ o')
    end.
Proof.
  intro H. unfold look_for_command.
  destruct (serial i); [congruence|reflexivity].
Qed.

Lemma one_line_run (float_of : string -> option Q) (st : state)
  (i : tick_in) (l : string) :
  command st = EmptyString ->
  serial i = list_ascii_of_string (line l) ->
  forallb (fun c => negb (is_erase c)) (list_ascii_of_string l) = true ->
  split_newline l = None ->
  look_for_command float_of st i
  = (do (st', o') <- dispatch float_of (set_command st EmptyString) l i ;;
     Ok (st', map NewChar (serial i) ++ o')).
Proof.
  intros Hc Hs He Hn.
  assert (Hl : list_ascii_of_string (line l)
               = (list_ascii_of_string l ++ [newline])%list)
    by (unfold line; now rewrite list_of_string_app).
  rewrite look_with_bytes
    by (rewrite Hs, Hl; destruct (list_ascii_of_string l); discriminate).
  rewrite Hc, Hs, Hl, drain_plain by (now rewrite forallb_app, He).
  rewrite string_of_list_app, string_of_list_ascii_of_string. simpl.
  now rewrite (split_newline_app _ _ Hn).
Qed.

(** Lines 140-151. When the buffer is empty and a pass reads one line
    (free of erase codes and newlines) and its newline, that line is the one
    run, and the buffer is empty when it runs and after it. *)
Theorem one_line_is_dispatched (float_of : string -> option Q) (st : state)
  (i : tick_in) (l : string) :
  command st = EmptyString ->
  serial i = list_ascii_of_string (line l) ->
  forallb (fun c => negb (is_erase c)) (list_ascii_of_string l) = true ->
  split_newline l = None ->
  look_for_command float_of st i
  = (do (st', o') <- dispatch float_of (set_command st EmptyString) l i ;;
     Ok (st', map NewChar (serial i) ++ o')) /\
  forall st' o,
    look_for_command float_of st i = Ok (st', o) ->
    command st' = EmptyString.
Proof.
  intros Hc Hs He Hn.
  pose proof (one_line_run float_of st i l Hc Hs He Hn) as El.
  split; [exact El|].
  intros st' o H. rewrite El in H.
  destruct (dispatch float_of (set_command st EmptyString) l i)
    as [[s2 o2]|e] eqn:Ed; simpl in H; [|discriminate].
  injection H as <- _. now apply dispatch_frame in Ed.
Qed.

Lemma one_line_is_dispatched_witness :
  look_for_command decimal (init 0 0) (pass_at 1 0 (line "read"))
  = (do (st', o') <- dispatch decimal (set_command (init 0 0) EmptyString)
                              "read" (pass_at 1 0 (line "read")) ;;
     Ok (st', map NewChar (serial (pass_at 1 0 (line "read"))) ++ o')) /\
  forall st' o,
    look_for_command decimal (init 0 0) (pass_at 1 0 (line "read"))
    = Ok (st', o) ->
    command st' = EmptyString.
Proof.
  apply (one_line_is_dispatched decimal (init 0 0)
           (pass_at 1 0 (line "read")) "read"); reflexivity.
Defined.

(** Lines 178-193. A speed command whose value lies in [-1, 1], bounds
    included, makes that value the output and writes it to the servo; the
    target rate and the deadline stay as they were. *)
Theorem speed_accepted (float_of : string -> option Q) (st : state)
  (fullcomm : string) (i : tick_in) (v : Q) :
  verb_of fullcomm = VSpeed ->
  float_of (strip (drop 6 (strip fullcomm))) = Some v ->
  servo_min_speed <= v -> v <= servo_max_speed ->
  exists st',
    dispatch float_of st fullcomm i = Ok (st', [SetSpeed v]) /\
    servo_speed st' = v /\ throttle st' = Some v /\
    servo_rpm st' = servo_rpm st /\ stoptime st' = stoptime st.
Proof.
  intros Hv Hp Hlo Hhi. unfold dispatch. rewrite Hv.
  unfold do_speed. rewrite Hp.
  assert (E : Qlt_bool v servo_min_speed || Qlt_bool servo_max_speed v
              = false).
  { apply orb_false_iff. split; now apply Qlt_bool_false. }
  rewrite E. eexists. split; [reflexivity|]. repeat split.
Qed.

Lemma speed_accepted_witness :
  exists st',
    dispatch decimal (init 0 0) "speed -1" (pass_at 1 0 EmptyString)
    = Ok (st', [SetSpeed (-1)]) /\
    servo_speed st' = -1 /\ throttle st' = Some (-1) /\
    servo_rpm st' = servo_rpm (init 0 0) /\
    stoptime st' = stoptime (init 0 0).
Proof.
  apply (speed_accepted decimal (init 0 0) "speed -1"
           (pass_at 1 0 EmptyString) (-1)).
  - reflexivity.
  - reflexivity.
  - unfold Qle; simpl; lia.
  - unfold Qle; simpl; lia.
Defined.

(** Lines 158-172. A stop command with a number of minutes in
    [0, 43200], bounds included, sets the deadline to the clock reading plus
    60 times that number; output, target rate and servo are untouched. *)
Theorem stop_sets_deadline (float_of : string -> option Q) (st : state)
  (fullcomm : string) (i : tick_in) (v : Q) :
  verb_of fullcomm = VStop ->
  (5 < String.length (strip fullcomm))%nat ->
  float_of (strip (drop 4 (strip fullcomm))) = Some v ->
  0 <= v -> v <= 43200 ->
  exists st',
    dispatch float_of st fullcomm i = Ok (st', [SetStop v]) /\
    stoptime st' = t_cmd i + 60 * v /\
    servo_speed st' = servo_speed st /\ servo_rpm st' = servo_rpm st /\
    throttle st' = throttle st.
Proof.
  intros Hv Hlen Hp Hlo Hhi.
  rewrite (stop_with_minutes float_of st fullcomm i v Hv Hlen Hp Hlo Hhi).
  eexists. split; [reflexivity|]. repeat split.
Qed.

Lemma stop_sets_deadline_witness :
  exists st',
    dispatch decimal (init 0 0) "stop 43200" (pass_at 7 0 EmptyString)
    = Ok (st', [SetStop 43200]) /\
    stoptime st' = 7 + 60 * 43200 /\
    servo_speed st' = servo_speed (init 0 0) /\
    servo_rpm st' = servo_rpm (init 0 0) /\
    throttle st' = throttle (init 0 0).
Proof.
  apply (stop_sets_deadline decimal (init 0 0) "stop 43200"
           (pass_at 7 0 EmptyString) 43200).
  - reflexivity.
  - simpl. lia.
  - reflexivity.
  - unfold Qle; simpl; lia.
  - unfold Qle; simpl; lia.
Defined.

(** Lines 207-213. An accepted rpm command given while the servo runs
    (output not neutral) sets the target rate and leaves the output and the
    servo as they are. *)
Theorem rpm_keeps_running_output (float_of : string -> option Q)
  (st : state) (fullcomm : string) (i : tick_in) (v : Q) :
  verb_of fullcomm = VRpm ->
  float_of (strip (drop 4 (strip fullcomm))) = Some v ->
  0 <= v -> v <= 150 ->
  ~ servo_speed st == servo_zero_speed ->
  exists st',
    dispatch float_of st fullcomm i = Ok (st', [SetRpm v]) /\
    servo_rpm st' = v /\ servo_speed st' = servo_speed st /\
    throttle st' = throttle st /\ stoptime st' = stoptime st.
Proof.
  intros Hv Hp Hlo Hhi Hz. unfold dispatch. rewrite Hv.
  unfold do_rpm. rewrite Hp.
  assert (E : Qlt_bool v 0 || Qlt_bool 150 v = false).
  { apply orb_false_iff. split; now apply Qlt_bool_false. }
  rewrite E. cbn [servo_speed set_servo_rpm set_new_rpm].
  apply Qeq_bool_false in Hz. rewrite Hz.
  eexists. split; [reflexivity|]. repeat split.
Qed.

Lemma rpm_keeps_running_output_witness :
  let st := set_throttle (set_servo_speed (init 0 0) (1 # 2)) (1 # 2) in
  exists st',
    dispatch decimal st "rpm 150" (pass_at 1 0 EmptyString)
    = Ok (st', [SetRpm 150]) /\
    servo_rpm st' = 150 /\ servo_speed st' = servo_speed st /\
    throttle st' = throttle st /\ stoptime st' = stoptime st.
Proof.
  intro st.
  apply (rpm_keeps_running_output decimal st "rpm 150"
           (pass_at 1 0 EmptyString) 150).
  - reflexivity.
  - reflexivity.
  - unfold Qle; simpl; lia.
  - unfold Qle; simpl; lia.
  - vm_compute. discriminate.
Defined.

(** Lines 153-154 and 215-222. The help and read commands and lines that
    start with no verb print one line and change nothing in the state. *)
Theorem passive_commands (float_of : string -> option Q) (st : state)
  (fullcomm : string) (i : tick_in) :
  verb_of fullcomm = VHelp \/ verb_of fullcomm = VRead \/
  verb_of fullcomm = VInvalid ->
  exists m,
    dispatch float_of st fullcomm i = Ok (st, [m]) /\ is_reply m = true.
Proof.
  unfold dispatch. intros [H|[H|H]]; rewrite H.
  - now exists Help.
  - destruct (mag_read i) as [[x y] z]. eexists. split; reflexivity.
  - now exists (InvalidCommand fullcomm).
Qed.

Lemma passive_commands_witness :
  exists m,
    dispatch decimal (init 0 0) "go" (pass_at 1 0 EmptyString)
    = Ok (init 0 0, [m]) /\ is_reply m = true.
Proof.
  apply (passive_commands decimal (init 0 0) "go" (pass_at 1 0 EmptyString)).
  right. right. reflexivity.
Defined.

(** ** Output bound and servo agreement over runs *)

Lemma servo_ok_same (a b : state) :
  servo_speed a = servo_speed b -> throttle a = throttle b ->
  servo_ok b -> servo_ok a.
Proof.
  unfold servo_ok. intros -> ->. tauto.
Qed.

Lemma servo_ok_written (st : state) (v : Q) :
  v <= servo_max_speed ->
  servo_speed st = v -> throttle st = Some v -> servo_ok st.
Proof.
  unfold servo_ok. intros H -> ->. split; [exact H|now left].
Qed.

Lemma neutral_le_max : servo_zero_speed <= servo_max_speed.
Proof. unfold Qle. simpl. lia. Qed.

Lemma init_servo_ok (t0 t1 : Q) : servo_ok (init t0 t1).
Proof.
  unfold servo_ok. simpl. split; [apply neutral_le_max|now right].
Qed.

Lemma sense_servo_ok (st sa : state) (i : tick_in) :
  servo_ok st -> sense st i = Ok sa -> servo_ok sa.
Proof.
  intros Hok H. unfold sense in H.
  destruct (filter_frame st i) as (_ & _ & _ & _ & Hc).
  unfold control in Hc. injection Hc as Hsp Hrpm _ _ Hth.
  assert (Hf : servo_ok (filter st i)) by (eapply servo_ok_same; eauto).
  destruct (accepted st i); [|now injection H as <-].
  destruct (Qeq_bool (servo_rpm (filter st i)) 0) eqn:Er.
  - unfold crossing, bind in H. rewrite Er in H.
    destruct (setitem _ _ _); [|discriminate]. injection H as <-.
    eapply servo_ok_same; [| |exact Hf]; reflexivity.
  - destruct (crossing_speed_le_max _ _ _ H Er) as [Hle Hth'].
    now apply (servo_ok_written sa (servo_speed sa)).
Qed.

Lemma check_stop_servo_ok (st st' : state) (t : Q) (o : list msg) :
  servo_ok st -> check_stop st t = (st', o) -> servo_ok st'.
Proof.
  unfold check_stop. intros Hok H.
  destruct (stop_due st t); injection H as <- _; [|exact Hok].
  apply (servo_ok_written _ servo_zero_speed);
    [apply neutral_le_max|reflexivity|reflexivity].
Qed.

Lemma dispatch_servo_ok (float_of : string -> option Q) (st st' : state)
  (fullcomm : string) (i : tick_in) (o : list msg) :
  servo_ok st -> dispatch float_of st fullcomm i = Ok (st', o) ->
  servo_ok st'.
Proof.
  intros Hok H. unfold dispatch in H.
  destruct (verb_of fullcomm).
  - now injection H as <- _.
  - unfold do_stop in H.
    destruct (5 <? String.length (strip fullcomm))%nat.
    + destruct (float_of _) as [v|]; [|now injection H as <- _].
      destruct (Qlt_bool v 0 || Qlt_bool 43200 v).
      * simpl in H. destruct (new_rpm st); [|discriminate].
        injection H as <- _. eapply servo_ok_same; [| |exact Hok];
          reflexivity.
      * injection H as <- _. eapply servo_ok_same; [| |exact Hok];
          reflexivity.
    + injection H as <- _.
      apply (servo_ok_written _ servo_zero_speed);
        [apply neutral_le_max|reflexivity|reflexivity].
  - unfold do_speed in H.
    destruct (float_of _) as [v|]; [|now injection H as <- _].
    destruct (Qlt_bool v servo_min_speed || Qlt_bool servo_max_speed v)
      eqn:E; injection H as <- _.
    + eapply servo_ok_same; [| |exact Hok]; reflexivity.
    + apply orb_false_iff in E. destruct E as [_ E].
      apply Qlt_bool_false in E.
      now apply (servo_ok_written _ v).
  - unfold do_rpm in H.
    destruct (float_of _) as [v|]; [|now injection H as <- _].
    destruct (Qlt_bool v 0 || Qlt_bool 150 v).
    + injection H as <- _. eapply servo_ok_same; [| |exact Hok];
        reflexivity.
    + cbn [servo_speed set_servo_rpm set_new_rpm] in H.
      destruct (Qeq_bool (servo_speed st) servo_zero_speed);
        injection H as <- _.
      * apply (servo_ok_written _ (1 # 10)); [|reflexivity|reflexivity].
        unfold Qle. simpl. lia.
      * eapply servo_ok_same; [| |exact Hok]; reflexivity.
  - destruct (mag_read i) as [[x y] z]. now injection H as <- _.
  - now injection H as <- _.
Qed.

Lemma look_servo_ok (float_of : string -> option Q) (st st' : state)
  (i : tick_in) (o : list msg) :
  servo_ok st -> look_for_command float_of st i = Ok (st', o) ->
  servo_ok st'.
Proof.
  intros Hok H. unfold look_for_command in H.
  destruct (serial i) as [|c r]; [now injection H as <- _|].
  destruct (drain (command st) (c :: r)) as [cmd o1].
  destruct (split_newline cmd) as [[fullcomm rest]|].
  - destruct (dispatch float_of (set_command st rest) fullcomm i)
      as [[s2 o2]|e] eqn:Ed; simpl in H; [|discriminate].
    injection H as <- _.
    eapply dispatch_servo_ok; [|exact Ed].
    eapply servo_ok_same; [| |exact Hok]; reflexivity.
  - injection H as <- _. eapply servo_ok_same; [| |exact Hok]; reflexivity.
Qed.

Lemma tick_servo_ok (float_of : string -> option Q) (st st' : state)
  (i : tick_in) (o : list msg) :
  servo_ok st -> tick float_of st i = Ok (st', o) -> servo_ok st'.
Proof.
  intros Hok. unfold tick.
  destruct (sense st i) as [sa|e] eqn:Es; simpl; [|discriminate].
  destruct (check_stop sa (t_mon i)) as [st2 o2] eqn:Ec.
  destruct (status st2 i) as [o3|e]; simpl; [|discriminate].
  destruct (look_for_command float_of st2 i) as [[st3 o4]|e] eqn:El;
    simpl; [|discriminate].
  intro H. injection H as <- _.
  eapply look_servo_ok; [|exact El].
  eapply check_stop_servo_ok; [|exact Ec].
  eapply sense_servo_ok; eauto.
Qed.

Lemma run_servo_ok (float_of : string -> option Q) (ins : list tick_in) :
  forall (st st' : state) (o : list msg),
    servo_ok st -> run float_of st ins = Ok (st', o) -> servo_ok st'.
Proof.
  induction ins as [|i r IH]; intros st st' o Hok H; simpl in H.
  - now injection H as <- _.
  - destruct (tick float_of st i) as [[s1 o1]|e] eqn:Et; simpl in H;
      [|discriminate].
    destruct (run float_of s1 r) as [[s2 o2]|e] eqn:Er; simpl in H;
      [|discriminate].
    injection H as <- _. eapply IH; [|exact Er].
    eapply tick_servo_ok; eauto.
Qed.

(** Lines 91, 120, 125, 174, 191 and 212. In every state a run reaches
    from start-up, the output is at most 1.0: every assignment to it is the
    neutral value, 0.1, a checked speed or a clamped correction. *)
Theorem output_never_above_max (float_of : string -> option Q) (t0 t1 : Q)
  (ins : list tick_in) (st : state) (o : list msg) :
  run float_of (init t0 t1) ins = Ok (st, o) ->
  servo_speed st <= servo_max_speed.
Proof.
  intro H.
  now destruct (run_servo_ok float_of ins _ _ _ (init_servo_ok t0 t1) H).
Qed.

Lemma output_never_above_max_witness :
  exists st o,
    run decimal (init 0 0) two_crossings = Ok (st, o) /\
    servo_speed st <= servo_max_speed.
Proof.
  destruct (run decimal (init 0 0) two_crossings) as [[st o]|e] eqn:E.
  - exists st, o. split; [reflexivity|].
    exact (output_never_above_max decimal 0 0 two_crossings st o E).
  - vm_compute in E. discriminate E.
Defined.

(** Lines 121, 127, 175, 192 and 213. In every state a run reaches from
    start-up the servo holds the current output: the value last written to
    the throttle is the output, or nothing has been written yet and the
    output is still the neutral value. *)
Theorem throttle_follows_output (float_of : string -> option Q) (t0 t1 : Q)
  (ins : list tick_in) (st : state) (o : list msg) :
  run float_of (init t0 t1) ins = Ok (st, o) ->
  throttle st = Some (servo_speed st) \/
  (throttle st = None /\ servo_speed st = servo_zero_speed).
Proof.
  intro H.
  now destruct (run_servo_ok float_of ins _ _ _ (init_servo_ok t0 t1) H).
Qed.

Lemma throttle_follows_output_witness :
  exists st o,
    run decimal (init 0 0) two_crossings = Ok (st, o) /\
    (throttle st = Some (servo_speed st) \/
     (throttle st = None /\ servo_speed st = servo_zero_speed)).
Proof.
  destruct (run decimal (init 0 0) two_crossings) as [[st o]|e] eqn:E.
  - exists st, o. split; [reflexivity|].
    exact (throttle_follows_output decimal 0 0 two_crossings st o E).
  - vm_compute in E. discriminate E.
Defined.

(** ** Speed corrector below the target *)

(** Lines 117-120. When the target rate is not above the estimate, a
    correction lowers the output by (|target - estimate| + 0.5) / 1000, at
    least 0.0005, and nothing bounds the result below: from the minimum
    speed -1.0 it goes below -1.0. *)
Theorem correction_has_no_floor (rpm now_rpm speed : Q) :
  rpm <= now_rpm -> speed <= servo_max_speed ->
  speed_correction rpm now_rpm speed
  == speed - (Qabs (rpm - now_rpm) + (5 # 10)) / 1000 /\
  speed_correction rpm now_rpm speed <= speed - (5 # 10000) /\
  (speed <= servo_min_speed ->
   speed_correction rpm now_rpm speed < servo_min_speed).
Proof.
  intros Hle Hs. unfold servo_max_speed, servo_min_speed in *.
  pose proof (Qabs_nonneg (rpm - now_rpm)) as Ha.
  assert (Hd : (5 # 10000) <= (Qabs (rpm - now_rpm) + (5 # 10)) / 1000).
  { apply Qle_shift_div_l; lra. }
  assert (En : nudge rpm now_rpm speed
               = speed - (Qabs (rpm - now_rpm) + (5 # 10)) / 1000).
  { unfold nudge. apply Qlt_bool_false in Hle. now rewrite Hle. }
  unfold speed_correction. rewrite En.
  assert (Ec : Qlt_bool 1 (speed - (Qabs (rpm - now_rpm) + (5 # 10)) / 1000)
               = false) by (apply Qlt_bool_false; lra).
  rewrite Ec. repeat split; lra.
Qed.

Lemma correction_has_no_floor_witness :
  speed_correction 30 60 (-1)
  == -1 - (Qabs (30 - 60) + (5 # 10)) / 1000 /\
  speed_correction 30 60 (-1) <= -1 - (5 # 10000) /\
  (-1 <= servo_min_speed ->
   speed_correction 30 60 (-1) < servo_min_speed).
Proof.
  apply (correction_has_no_floor 30 60 (-1)).
  - unfold Qle; simpl; lia.
  - unfold Qle; simpl; lia.
Defined.

(** Line 116. When the five stored intervals all equal [d] seconds, the
    estimate is 60 / d revolutions per minute. *)
Theorem uniform_intervals_rate (d : Q) :
  0 < d ->
  exists r, rpm_now [d; d; d; d; d] = Ok r /\ r == 60 / d.
Proof.
  intro Hd. unfold rpm_now, len. simpl List.length.
  assert (Hs : ~ sum [d; d; d; d; d] == 0) by (simpl; lra).
  rewrite (fdiv_ok _ _ Hs). eexists. split; [reflexivity|].
  simpl. field. lra.
Qed.

Lemma uniform_intervals_rate_witness :
  exists r, rpm_now [1 # 2; 1 # 2; 1 # 2; 1 # 2; 1 # 2] = Ok r /\
            r == 60 / (1 # 2).
Proof.
  apply (uniform_intervals_rate (1 # 2)). reflexivity.
Defined.

(** ** Exceptions *)

Lemma sense_new_rpm (st sa : state) (i : tick_in) :
  sense st i = Ok sa -> new_rpm sa = new_rpm st.
Proof.
  unfold sense, crossing, bind. intro H.
  destruct (mag i) as [[x y] z] eqn:Em.
  bind_cases H; injection H as <-; unfold filter; rewrite Em; reflexivity.
Qed.

Lemma check_stop_new_rpm (st st' : state) (t : Q) (o : list msg) :
  check_stop st t = (st', o) -> new_rpm st' = new_rpm st.
Proof.
  unfold check_stop. destruct (stop_due st t); intro H;
    now injection H as <- _.
Qed.

Lemma dispatch_keeps_bound (float_of : string -> option Q)
  (st st' : state) (fullcomm : string) (i : tick_in) (o : list msg) :
  dispatch float_of st fullcomm i = Ok (st', o) ->
  new_rpm st <> None -> new_rpm st' <> None.
Proof.
  unfold dispatch, do_stop, do_speed, do_rpm. intro H.
  destruct (mag_read i) as [[x y] z].
  bind_cases H; injection H as <- _; simpl; intros; congruence.
Qed.

Lemma dispatch_raise_unbound (float_of : string -> option Q) (st : state)
  (fullcomm : string) (i : tick_in) (e : exn) :
  dispatch float_of st fullcomm i = Raise e -> new_rpm st = None.
Proof.
  unfold dispatch, do_stop, do_speed, do_rpm. intro H.
  destruct (mag_read i) as [[x y] z].
  bind_cases H; simpl in *; first [assumption | reflexivity].
Qed.

Lemma dispatch_bound (float_of : string -> option Q) (st : state)
  (fullcomm : string) (i : tick_in) :
  new_rpm st <> None ->
  exists st' o,
    dispatch float_of st fullcomm i = Ok (st', o) /\ new_rpm st' <> None.
Proof.
  intro Hb.
  destruct (dispatch float_of st fullcomm i) as [[st' o]|e] eqn:E.
  - exists st', o. split; [reflexivity|].
    eapply dispatch_keeps_bound; eauto.
  - apply dispatch_raise_unbound in E. congruence.
Qed.

Lemma look_bound (float_of : string -> option Q) (st : state)
  (i : tick_in) :
  new_rpm st <> None ->
  exists st' o,
    look_for_command float_of st i = Ok (st', o) /\ new_rpm st' <> None.
Proof.
  intro Hb. unfold look_for_command.
  destruct (serial i) as [|c r]; [now exists st, []|].
  destruct (drain (command st) (c :: r)) as [cmd o1].
  destruct (split_newline cmd) as [[fullcomm rest]|].
  - destruct (dispatch_bound float_of (set_command st rest) fullcomm i Hb)
      as (s2 & o2 & Ed & Hb2).
    rewrite Ed. simpl. now exists s2, (o1 ++ o2)%list.
  - now exists (set_command st cmd), o1.
Qed.

Lemma tick_bound (float_of : string -> option Q) (st : state)
  (i : tick_in) :
  history_ok st -> clock_monotone i -> new_rpm st <> None ->
  exists st' o,
    tick float_of st i = Ok (st', o) /\
    history_ok st' /\ new_rpm st' <> None.
Proof.
  intros Hh Hc Hb.
  pose proof (tick_history float_of st i Hh Hc) as Hth.
  unfold tick in *.
  destruct (sense_history st i Hh Hc) as (sa & Es & Hsa).
  rewrite Es in *. simpl in *.
  apply sense_new_rpm in Es.
  destruct (check_stop sa (t_mon i)) as [st2 o2] eqn:Estop.
  apply check_stop_new_rpm in Estop as En2.
  apply check_stop_frame in Estop. destruct Estop as (Hs2 & _).
  assert (H2 : history_ok st2) by (eapply history_sensing; eauto).
  destruct (status_total st2 i H2) as (o3 & Eo3).
  rewrite Eo3 in *. simpl in *.
  destruct (look_bound float_of st2 i) as (st3 & o4 & El & Hb3);
    [congruence|].
  rewrite El in *. simpl in *. now exists st3, (o2 ++ o3 ++ o4)%list.
Qed.

Lemma run_bound (float_of : string -> option Q) (ins : list tick_in) :
  forall st : state,
    history_ok st -> Forall clock_monotone ins -> new_rpm st <> None ->
    exists st' o, run float_of st ins = Ok (st', o).
Proof.
  induction ins as [|i r IH]; intros st Hh Hc Hb; simpl.
  - now exists st, [].
  - inversion Hc as [|? ? Hi Hr]; subst.
    destruct (tick_bound float_of st i Hh Hi Hb)
      as (s1 & o1 & Et & Hh1 & Hb1).
    rewrite Et. simpl.
    destruct (IH s1 Hh1 Hr Hb1) as (s2 & o2 & Er).
    rewrite Er. simpl. now exists s2, (o1 ++ o2)%list.
Qed.

Lemma run_reaches_history (float_of : string -> option Q) (t0 t1 : Q)
  (ins : list tick_in) (st : state) (o : list msg) :
  Forall clock_monotone ins ->
  run float_of (init t0 t1) ins = Ok (st, o) -> history_ok st.
Proof.
  intros Hc E.
  pose proof (run_history float_of ins _ (init_history t0 t1) Hc) as H.
  now rewrite E in H.
Qed.

(** Lines 94-222. Once an rpm command has had a number parsed (so that
    [new_rpm] is bound), no later pass raises an exception of the script's
    own expressions: not the NameError of the stop range message, no
    ZeroDivisionError and no IndexError.  Failures inside the sensor, servo
    and stdin drivers are outside the model and not covered.  The clock is
    assumed not to run backwards within a pass. *)
Theorem no_script_error_once_rpm_parsed (float_of : string -> option Q)
  (t0 t1 : Q) (before after : list tick_in) (st : state) (o : list msg) :
  Forall clock_monotone before -> Forall clock_monotone after ->
  run float_of (init t0 t1) before = Ok (st, o) ->
  new_rpm st <> None ->
  run float_of st after <> Raise NameError /\
  run float_of st after <> Raise ZeroDivisionError /\
  run float_of st after <> Raise IndexError.
Proof.
  intros Hb Ha E Hn.
  pose proof (run_reaches_history float_of t0 t1 before st o Hb E) as Hh.
  destruct (run_bound float_of after st Hh Ha Hn) as (st' & o' & Er).
  rewrite Er. repeat split; discriminate.
Qed.

Lemma no_script_error_once_rpm_parsed_witness :
  exists st o,
    run decimal (init 0 0) [pass_at 1 0 (line "rpm 200")] = Ok (st, o) /\
    run decimal st [pass_at 2 0 (line "stop 999999")] <> Raise NameError /\
    run decimal st [pass_at 2 0 (line "stop 999999")]
    <> Raise ZeroDivisionError /\
    run decimal st [pass_at 2 0 (line "stop 999999")] <> Raise IndexError.
Proof.
  destruct (run decimal (init 0 0) [pass_at 1 0 (line "rpm 200")])
    as [[st o]|e] eqn:E; [|vm_compute in E; discriminate E].
  exists st, o. split; [reflexivity|].
  apply (no_script_error_once_rpm_parsed decimal 0 0
           [pass_at 1 0 (line "rpm 200")]
           [pass_at 2 0 (line "stop 999999")] st o).
  - repeat constructor; apply pass_at_monotone.
  - repeat constructor; apply pass_at_monotone.
  - exact E.
  - vm_compute in E. injection E as <- _. discriminate.
Defined.

(** Lines 94-222. A pass from a state reached from start-up never divides
    by zero (lines 116, 133, 136) and never indexes the interval list out
    of range (line 113); it raises the NameError of the stop range message
    (line 168) only while no rpm value has ever been parsed and the pass
    reads input.  Failures inside the sensor, servo and stdin drivers are
    outside the model and not covered.  The clock is assumed not to run
    backwards within a pass. *)
Theorem script_errors_of_a_pass (float_of : string -> option Q)
  (t0 t1 : Q) (ins : list tick_in) (st : state) (o : list msg)
  (i : tick_in) :
  Forall clock_monotone ins -> clock_monotone i ->
  run float_of (init t0 t1) ins = Ok (st, o) ->
  tick float_of st i <> Raise ZeroDivisionError /\
  tick float_of st i <> Raise IndexError /\
  (tick float_of st i = Raise NameError ->
   new_rpm st = None /\ serial i <> []).
Proof.
  intros Hc Hi E.
  pose proof (run_reaches_history float_of t0 t1 ins st o Hc E) as Hh.
  pose proof (tick_history float_of st i Hh Hi) as Hth.
  split; [intro Ht; rewrite Ht in Hth; discriminate Hth|].
  split; [intro Ht; rewrite Ht in Hth; discriminate Hth|].
  intro Ht. split.
  - destruct (new_rpm st) as [r|] eqn:En; [|reflexivity].
    destruct (tick_bound float_of st i Hh Hi) as (s1 & o1 & Et & _);
      [congruence|]. congruence.
  - intro Hs. unfold tick in Ht.
    destruct (sense_history st i Hh Hi) as (sa & Es & Hsa).
    rewrite Es in Ht. simpl in Ht.
    destruct (check_stop sa (t_mon i)) as [st2 o2] eqn:Estop.
    apply check_stop_frame in Estop. destruct Estop as (Hs2 & _).
    assert (H2 : history_ok st2) by (eapply history_sensing; eauto).
    destruct (status_total st2 i H2) as (o3 & Eo3).
    rewrite Eo3 in Ht. simpl in Ht.
    rewrite (look_without_bytes _ _ _ Hs) in Ht. discriminate Ht.
Qed.

Lemma script_errors_of_a_pass_witness :
  let i := pass_at 1 0 (line "stop 999999") in
  tick decimal (init 0 0) i = Raise NameError /\
  tick decimal (init 0 0) i <> Raise ZeroDivisionError /\
  tick decimal (init 0 0) i <> Raise IndexError /\
  (tick decimal (init 0 0) i = Raise NameError ->
   new_rpm (init 0 0) = None /\ serial i <> []).
Proof.
  intro i. split; [vm_compute; reflexivity|].
  apply (script_errors_of_a_pass decimal 0 0 [] (init 0 0) [] i).
  - constructor.
  - apply pass_at_monotone.
  - reflexivity.
Defined.

(** ** Interval history as a ring of five slots *)

Lemma setitem_nth (x : Q) :
  forall (l l' : list Q) (n : nat),
    setitem l n x = Ok l' ->
    nth_error l' n = Some x /\
    forall k, k <> n -> nth_error l' k = nth_error l k.
Proof.
  induction l as [|y l IH]; intros l' n H; simpl in H; [discriminate|].
  destruct n as [|n].
  - injection H as <-. split; [reflexivity|].
    intros [|k] Hk; [congruence|reflexivity].
  - destruct (setitem l n x) as [r|e] eqn:E; simpl in H; [|discriminate].
    injection H as <-. destruct (IH r n E) as [H1 H2].
    split; [exact H1|].
    intros [|k] Hk; [reflexivity|]. simpl. apply H2. congruence.
Qed.

Lemma crossing_fields (st sa : state) (i : tick_in) :
  crossing st i = Ok sa ->
  let ind := if (len (delist st) <=? delistind st + 1)%Z then 0%Z
             else (delistind st + 1)%Z in
  delistind sa = ind /\ deltime sa = t_delta i - timelast st /\
  setitem (delist st) (Z.to_nat ind) (t_delta i - timelast st)
  = Ok (delist sa).
Proof.
  unfold crossing, bind. intro H.
  destruct (setitem _ _ _) as [l|e] eqn:E; [|discriminate].
  destruct (Qeq_bool (servo_rpm st) 0).
  - injection H as <-. simpl. repeat split.
  - destruct (rpm_now l); [|discriminate].
    injection H as <-. simpl. repeat split.
Qed.

(** Lines 108-113. An accepted crossing advances the index by one modulo
    five, stores the new interval in that slot and leaves the other four
    slots as they were; the slot written first after start-up is slot 1. *)
Theorem crossing_writes_next_slot (st sa : state) (i : tick_in) :
  history_ok st -> accepted st i = true -> sense st i = Ok sa ->
  delistind sa = ((delistind st + 1) mod 5)%Z /\
  deltime sa = t_delta i - timelast st /\
  nth_error (delist sa) (Z.to_nat (delistind sa)) = Some (deltime sa) /\
  forall k, k <> Z.to_nat (delistind sa) ->
            nth_error (delist sa) k = nth_error (delist st) k.
Proof.
  intros (Hlen & _ & Hind) Ha H. unfold sense in H. rewrite Ha in H.
  destruct (filter_frame st i) as (Etl & _ & Edl & Edi & _).
  apply crossing_fields in H. rewrite Etl, Edl, Edi in H.
  destruct H as (Hi & Hd & Hs).
  assert (Hmod : (if (len (delist st) <=? delistind st + 1)%Z then 0%Z
                  else (delistind st + 1)%Z)
                 = ((delistind st + 1) mod 5)%Z).
  { unfold len. rewrite Hlen.
    destruct (Z.leb_spec (Z.of_nat 5) (delistind st + 1)).
    - assert (E : (delistind st + 1 = 5)%Z) by lia. now rewrite E.
    - symmetry. apply Z.mod_small. lia. }
  rewrite Hmod in Hi, Hs. rewrite <- Hi in Hs. rewrite <- Hd in Hs.
  apply setitem_nth in Hs. destruct Hs as [H1 H2].
  repeat split; assumption.
Qed.

Lemma crossing_writes_next_slot_witness :
  let st := init 0 0 in
  let i := pass_at 1 1 EmptyString in
  exists sa,
    sense st i = Ok sa /\
    delistind sa = ((delistind st + 1) mod 5)%Z /\
    deltime sa = t_delta i - timelast st /\
    nth_error (delist sa) (Z.to_nat (delistind sa)) = Some (deltime sa) /\
    forall k, k <> Z.to_nat (delistind sa) ->
              nth_error (delist sa) k = nth_error (delist st) k.
Proof.
  intros st i.
  destruct (sense st i) as [sa|e] eqn:E; [|vm_compute in E; discriminate E].
  exists sa. split; [reflexivity|].
  apply (crossing_writes_next_slot st sa i).
  - apply init_history.
  - vm_compute. reflexivity.
  - exact E.
Defined.

(** ** Runs without input *)

Lemma check_stop_early (st : state) (t : Q) :
  t <= stoptime st -> check_stop st t = (st, []).
Proof.
  intro H. unfold check_stop, stop_due.
  assert (E : Qlt_bool (stoptime st) t = false) by now apply Qlt_bool_false.
  now rewrite E.
Qed.

Lemma tick_idle (float_of : string -> option Q) (st st' : state)
  (i : tick_in) (o : list msg) :
  idle_pass (stoptime st) i ->
  tick float_of st i = Ok (st', o) ->
  sense st i = Ok st' /\
  List.filter is_stopping_now o = [] /\ List.filter is_reply o = [].
Proof.
  intros [Hs Ht]. unfold tick.
  destruct (sense st i) as [sa|e] eqn:Es; simpl; [|discriminate].
  apply sense_frame in Es as Hf. destruct Hf as (_ & Hst & _).
  assert (Ec : check_stop sa (t_mon i) = (sa, [])).
  { destruct Ht as [Ht|Ht];
      [apply check_stop_early|apply check_stop_late]; rewrite Hst; lra. }
  rewrite Ec.
  destruct (status sa i) as [o3|e] eqn:Estat; simpl; [|discriminate].
  rewrite (look_without_bytes _ _ _ Hs). simpl.
  intro H. injection H as <- <-. split; [reflexivity|].
  rewrite app_nil_r. split.
  - now apply status_quiet in Estat.
  - apply status_not_reply in Estat. now apply filter_none.
Qed.

Lemma run_idle (float_of : string -> option Q) (ins : list tick_in) :
  forall (st st' : state) (o : list msg),
    Forall (idle_pass (stoptime st)) ins ->
    run float_of st ins = Ok (st', o) ->
    (stoptime st' = stoptime st /\ command st' = command st /\
     servo_rpm st' = servo_rpm st) /\
    (List.filter is_stopping_now o = [] /\ List.filter is_reply o = []) /\
    (servo_rpm st == 0 ->
     servo_speed st' = servo_speed st /\ throttle st' = throttle st).
Proof.
  induction ins as [|i r IH]; intros st st' o Hi H; simpl in H.
  - injection H as <- <-. repeat split.
  - inversion Hi as [|? ? Hi1 Hr]; subst.
    destruct (tick float_of st i) as [[s1 o1]|e] eqn:Et; simpl in H;
      [|discriminate].
    destruct (run float_of s1 r) as [[s2 o2]|e] eqn:Er; simpl in H;
      [|discriminate].
    injection H as <- <-.
    destruct (tick_idle _ _ _ _ _ Hi1 Et) as (Es & Hq1 & Hr1).
    apply sense_frame in Es. destruct Es as (Hc & Hst & Hrpm & Hsp).
    rewrite <- Hst in Hr.
    destruct (IH _ _ _ Hr Er) as ((H1 & H2 & H3) & (Hq2 & Hr2) & Hopen).
    split; [repeat split; congruence|]. split.
    + now rewrite !filter_app, Hq1, Hq2, Hr1, Hr2.
    + intro Hz. destruct Hsp as [Hsp Hth]; [now apply Qeq_bool_iff|].
      destruct Hopen as [Hsp2 Hth2]; [now rewrite Hrpm|].
      split; congruence.
Qed.

(** Lines 115-128 and 140. In a run in which no input arrives and no pass
    reads the clock during the second that follows the deadline, the stop
    never fires, not even when the deadline has long passed, and nothing is
    run or rescheduled; with the target rate 0 the output and the servo keep
    the values they have. *)
Theorem idle_run_keeps_output (float_of : string -> option Q)
  (ins : list tick_in) (st st' : state) (o : list msg) :
  Forall (idle_pass (stoptime st)) ins ->
  run float_of st ins = Ok (st', o) ->
  (stoptime st' = stoptime st /\ command st' = command st /\
   servo_rpm st' = servo_rpm st) /\
  (List.filter is_stopping_now o = [] /\ List.filter is_reply o = []) /\
  (servo_rpm st == 0 ->
   servo_speed st' = servo_speed st /\ throttle st' = throttle st).
Proof.
  apply run_idle.
Qed.

Lemma idle_run_keeps_output_witness :
  let st := set_stoptime
              (set_throttle (set_servo_speed (init 0 0) (1 # 2)) (1 # 2))
              160 in
  let ins := [pass_at 100 0 EmptyString; pass_at 161 1 EmptyString;
              pass_at 200 (-1) EmptyString] in
  exists st' o,
    run decimal st ins = Ok (st', o) /\
    (stoptime st' = stoptime st /\ command st' = command st /\
     servo_rpm st' = servo_rpm st) /\
    (List.filter is_stopping_now o = [] /\ List.filter is_reply o = []) /\
    (servo_rpm st == 0 ->
     servo_speed st' = servo_speed st /\ throttle st' = throttle st).
Proof.
  intros st ins.
  destruct (run decimal st ins) as [[st' o]|e] eqn:E;
    [|vm_compute in E; discriminate E].
  exists st', o. split; [reflexivity|].
  apply (idle_run_keeps_output decimal ins st st' o); [|exact E].
  constructor; [split; [reflexivity|left; unfold Qle; simpl; lia]|].
  constructor; [split; [reflexivity|right; unfold Qle; simpl; lia]|].
  constructor; [split; [reflexivity|right; unfold Qle; simpl; lia]|].
  constructor.
Defined.

(** ** Crossing candidates *)

(** Lines 100-104. A pass is a crossing candidate only if its sample lies
    above the short average before the pass and above the long average
    after it: the short filter cannot rise over the long one on a sample
    below them. *)
Theorem candidate_needs_rising_sample (st : state) (i : tick_in) :
  candidate (filter st i) = true ->
  fltval st < sample i /\ medval (filter st i) < sample i.
Proof.
  unfold candidate, filter, sample. destruct (mag i) as [[x y] z]. simpl.
  rewrite andb_true_iff, Qlt_bool_iff, Qle_bool_iff. intros [H1 H2].
  split; lra.
Qed.

Lemma candidate_needs_rising_sample_witness :
  fltval (init 0 0) < sample (pass_at 1 1 EmptyString) /\
  medval (filter (init 0 0) (pass_at 1 1 EmptyString))
  < sample (pass_at 1 1 EmptyString).
Proof.
  apply (candidate_needs_rising_sample (init 0 0) (pass_at 1 1 EmptyString)).
  vm_compute. reflexivity.
Defined.

(** ** Stop notification *)

(** Lines 123-128. A pass prints the stop notification exactly when, after
    sensing, the deadline lies in the last second and the output is not
    neutral, and then prints it once; what the pass reads from stdin has
    no part in it. *)
Theorem stop_notice_iff_due (float_of : string -> option Q)
  (st sa st' : state) (i : tick_in) (o : list msg) :
  sense st i = Ok sa ->
  tick float_of st i = Ok (st', o) ->
  List.filter is_stopping_now o
  = if stop_due sa (t_mon i) then [StoppingNow] else [].
Proof.
  intros Es. unfold tick. rewrite Es. simpl. unfold check_stop.
  destruct (stop_due sa (t_mon i)).
  - destruct (status _ i) as [o3|e] eqn:Estat; simpl; [|discriminate].
    destruct (look_for_command float_of _ i) as [[st3 o4]|e] eqn:El;
      simpl; [|discriminate].
    intro H. injection H as _ <-.
    apply status_quiet in Estat.
    apply look_for_command_frame in El. destruct El as (_ & Ho4).
    apply filter_none in Ho4. simpl.
    now rewrite filter_app, Estat, Ho4.
  - destruct (status _ i) as [o3|e] eqn:Estat; simpl; [|discriminate].
    destruct (look_for_command float_of _ i) as [[st3 o4]|e] eqn:El;
      simpl; [|discriminate].
    intro H. injection H as _ <-.
    apply status_quiet in Estat.
    apply look_for_command_frame in El. destruct El as (_ & Ho4).
    apply filter_none in Ho4.
    now rewrite filter_app, Estat, Ho4.
Qed.

Lemma stop_notice_iff_due_witness :
  let st := set_stoptime
              (set_throttle (set_servo_speed (init 0 0) (1 # 2)) (1 # 2))
              160 in
  let i := pass_at (1605 # 10) 0 (line "speed 0.5") in
  exists st' o,
    tick decimal st i = Ok (st', o) /\
    List.filter is_stopping_now o
    = if stop_due (filter st i) (t_mon i) then [StoppingNow] else [].
Proof.
  intros st i.
  destruct (tick decimal st i) as [[st' o]|e] eqn:E;
    [|vm_compute in E; discriminate E].
  exists st', o. split; [reflexivity|].
  apply (stop_notice_iff_due decimal st (filter st i) st' i o).
  - vm_compute. reflexivity.
  - exact E.
Defined.

(** ** Range of the estimate *)

Lemma sense_intervals (st sa : state) (i : tick_in) :
  history_ok st -> clock_monotone i ->
  Forall (fun d => (1 # 10) < d) (delist st) ->
  sense st i = Ok sa ->
  Forall (fun d => (1 # 10) < d) (delist sa).
Proof.
  intros Hh Hc Hp H.
  destruct (filter_frame st i) as (Etl & _ & Edl & Edi & _).
  destruct (accepted st i) eqn:Ha.
  - destruct (sense_accepted _ _ _ H Ha) as (_ & _ & _ & Hg).
    unfold sense in H. rewrite Ha in H.
    apply crossing_fields in H. rewrite Etl, Edl, Edi in H.
    destruct H as (_ & _ & Hs).
    destruct Hh as (Hlen & _ & Hind).
    destruct Hc as (_ & Hc & _).
    set (ind := if (len (delist st) <=? delistind st + 1)%Z then 0%Z
                else (delistind st + 1)%Z) in *.
    assert (Hrange : (0 <= ind < 5)%Z).
    { unfold ind, len. rewrite Hlen.
      destruct (Z.leb_spec (Z.of_nat 5) (delistind st + 1)); lia. }
    destruct (setitem_spec (fun d => (1 # 10) < d)
                (t_delta i - timelast st) (delist st) (Z.to_nat ind))
      as (l' & El & _ & HP); [rewrite Hlen; lia|].
    rewrite El in Hs. injection Hs as <-. apply HP; [exact Hp|lra].
  - destruct (sense_rejected _ _ _ H Ha) as (_ & _ & Hd & _).
    now rewrite Hd.
Qed.

Lemma run_intervals (float_of : string -> option Q) (ins : list tick_in) :
  forall (st st' : state) (o : list msg),
    history_ok st -> Forall clock_monotone ins ->
    Forall (fun d => (1 # 10) < d) (delist st) ->
    run float_of st ins = Ok (st', o) ->
    history_ok st' /\ Forall (fun d => (1 # 10) < d) (delist st').
Proof.
  induction ins as [|i r IH]; intros st st' o Hh Hc Hp H; simpl in H.
  - injection H as <- _. now split.
  - inversion Hc as [|? ? Hi Hr]; subst.
    pose proof (tick_history float_of st i Hh Hi) as Hth.
    destruct (tick float_of st i) as [[s1 o1]|e] eqn:Et; simpl in H;
      [|discriminate].
    destruct (run float_of s1 r) as [[s2 o2]|e] eqn:Er; simpl in H;
      [|discriminate].
    injection H as <- _.
    apply tick_sensing in Et. destruct Et as (sa & Es & Hs).
    apply (sense_intervals st sa i Hh Hi Hp) in Es.
    unfold sensing in Hs. injection Hs as _ _ _ _ _ Hd _.
    rewrite <- Hd in Es. exact (IH _ _ _ Hth Hr Es Er).
Qed.

Lemma sum_above_five (c : Q) (l : list Q) :
  List.length l = 5%nat -> Forall (fun d => c < d) l -> 5 * c < sum l.
Proof.
  intros Hlen H.
  destruct l as [|a [|b [|d [|e [|f [|g l]]]]]]; try discriminate.
  inversion H as [|? ? Ha H1]; subst. inversion H1 as [|? ? Hb H2]; subst.
  inversion H2 as [|? ? Hd H3]; subst. inversion H3 as [|? ? He H4]; subst.
  inversion H4 as [|? ? Hf _]; subst. simpl. lra.
Qed.

(** Lines 84, 106-113 and 116. In every state a run reaches from start-up
    each stored interval is longer than 0.1 s, so the estimated rate lies
    strictly between 0 and 600 revolutions per minute.  The clock is
    assumed not to run backwards within a pass. *)
Theorem estimate_below_600 (float_of : string -> option Q) (t0 t1 : Q)
  (ins : list tick_in) (st : state) (o : list msg) :
  Forall clock_monotone ins ->
  run float_of (init t0 t1) ins = Ok (st, o) ->
  Forall (fun d => (1 # 10) < d) (delist st) /\
  exists r, rpm_now (delist st) = Ok r /\ 0 < r /\ r < 600.
Proof.
  intros Hc H.
  assert (Hi : Forall (fun d => (1 # 10) < d) (delist (init t0 t1)))
    by (simpl; repeat constructor).
  destruct (run_intervals float_of ins _ _ _ (init_history t0 t1) Hc Hi H)
    as (Hh & Hp).
  split; [exact Hp|].
  destruct (rpm_now_history st Hh) as (r & Er & Eq & Hr).
  exists r. split; [exact Er|]. split; [exact Hr|].
  destruct Hh as (Hlen & _ & _).
  pose proof (sum_above_five (1 # 10) _ Hlen Hp) as Hs.
  rewrite Eq. apply Qlt_shift_div_r; lra.
Qed.

Lemma estimate_below_600_witness :
  exists st o,
    run decimal (init 0 0) two_crossings = Ok (st, o) /\
    Forall (fun d => (1 # 10) < d) (delist st) /\
    exists r, rpm_now (delist st) = Ok r /\ 0 < r /\ r < 600.
Proof.
  destruct (run decimal (init 0 0) two_crossings) as [[st o]|e] eqn:E;
    [|vm_compute in E; discriminate E].
  exists st, o. split; [reflexivity|].
  apply (estimate_below_600 decimal 0 0 two_crossings st o).
  - exact two_crossings_monotone.
  - exact E.
Defined.

(** ** Rejected arguments *)

(** Lines 196-206. An rpm command whose number lies outside [0, 150] is
    answered by a range message showing the number; output, target rate,
    deadline, servo and line buffer stay as they were. *)
Theorem rpm_rejected (float_of : string -> option Q) (st : state)
  (fullcomm : string) (i : tick_in) (v : Q) :
  verb_of fullcomm = VRpm ->
  float_of (strip (drop 4 (strip fullcomm))) = Some v ->
  v < 0 \/ 150 < v ->
  exists st',
    dispatch float_of st fullcomm i = Ok (st', [RpmRange v 0 150]) /\
    control st' = control st /\ sensing st' = sensing st.
Proof.
  intros Hv Hp Hr. unfold dispatch. rewrite Hv.
  rewrite (rpm_out_of_range float_of st fullcomm v Hp Hr).
  eexists. split; [reflexivity|]. split; reflexivity.
Qed.

Lemma rpm_rejected_witness :
  exists st',
    dispatch decimal (init 0 0) "rpm 200" (pass_at 1 0 EmptyString)
    = Ok (st', [RpmRange 200 0 150]) /\
    control st' = control (init 0 0) /\ sensing st' = sensing (init 0 0).
Proof.
  apply (rpm_rejected decimal (init 0 0) "rpm 200"
           (pass_at 1 0 EmptyString) 200).
  - reflexivity.
  - reflexivity.
  - right. unfold Qlt; simpl; lia.
Defined.

(** Lines 180-189. A speed command whose number lies outside [-1, 1] is
    answered by a range message showing the number; output, target rate,
    deadline, servo and line buffer stay as they were. *)
Theorem speed_rejected (float_of : string -> option Q) (st : state)
  (fullcomm : string) (i : tick_in) (v : Q) :
  verb_of fullcomm = VSpeed ->
  float_of (strip (drop 6 (strip fullcomm))) = Some v ->
  v < servo_min_speed \/ servo_max_speed < v ->
  exists st',
    dispatch float_of st fullcomm i
    = Ok (st', [SpeedRange v servo_min_speed servo_max_speed]) /\
    control st' = control st /\ sensing st' = sensing st.
Proof.
  intros Hv Hp Hr. unfold dispatch. rewrite Hv.
  rewrite (speed_out_of_range float_of st fullcomm v Hp Hr).
  eexists. split; [reflexivity|]. split; reflexivity.
Qed.

Lemma speed_rejected_witness :
  exists st',
    dispatch decimal (init 0 0) "speed 1.5" (pass_at 1 0 EmptyString)
    = Ok (st', [SpeedRange (15 # 10) servo_min_speed servo_max_speed]) /\
    control st' = control (init 0 0) /\ sensing st' = sensing (init 0 0).
Proof.
  apply (speed_rejected decimal (init 0 0) "speed 1.5"
           (pass_at 1 0 EmptyString) (15 # 10)).
  - reflexivity.
  - reflexivity.
  - right. unfold Qlt; simpl; lia.
Defined.

(** Lines 160-164, 180-184 and 197-201. A stop, speed or rpm command
    whose argument is not a number is answered by a message naming the line
    as received, and the state is unchanged. *)
Theorem unparsed_argument_rejected (float_of : string -> option Q)
  (st : state) (fullcomm : string) (i : tick_in) :
  (verb_of fullcomm = VStop /\ (5 < String.length (strip fullcomm))%nat /\
   float_of (strip (drop 4 (strip fullcomm))) = None) \/
  (verb_of fullcomm = VSpeed /\
   float_of (strip (drop 6 (strip fullcomm))) = None) \/
  (verb_of fullcomm = VRpm /\
   float_of (strip (drop 4 (strip fullcomm))) = None) ->
  exists m,
    dispatch float_of st fullcomm i = Ok (st, [m]) /\
    (m = InvalidStop fullcomm \/ m = InvalidSpeed fullcomm \/
     m = InvalidRpm fullcomm).
Proof.
  pose proof (parse_failure_no_mutation float_of st fullcomm i) as H.
  intros [(Hv & Hl & Hp)|[(Hv & Hp)|(Hv & Hp)]]; rewrite Hv in H;
    eexists; (split; [now apply H|]); tauto.
Qed.

Lemma unparsed_argument_rejected_witness :
  exists m,
    dispatch decimal (init 0 0) "rpm fast" (pass_at 1 0 EmptyString)
    = Ok (init 0 0, [m]) /\
    (m = InvalidStop "rpm fast" \/ m = InvalidSpeed "rpm fast" \/
     m = InvalidRpm "rpm fast").
Proof.
  apply (unparsed_argument_rejected decimal (init 0 0) "rpm fast"
           (pass_at 1 0 EmptyString)).
  right. right. split; reflexivity.
Defined.

Lemma split_newline_first_witness :
  split_newline "ab" = None /\
  split_newline (line "ab" ++ "cd") = Some ("ab"%string, "cd"%string).
Proof.
  split; [reflexivity|].
  apply (proj2 (split_newline_first (line "ab" ++ "cd") "ab" "cd")).
  split; reflexivity.
Defined.

Lemma verb_of_prefix_witness :
  take 3 (strip "  rpm 30 ") = "rpm"%string /\ verb_of "  rpm 30 " = VRpm.
Proof.
  split; [reflexivity|].
  destruct (verb_of_prefix "  rpm 30 ") as (_ & _ & _ & Hr & _).
  apply (proj2 Hr). reflexivity.
Defined.
